(** * The PETSc streamfunction solver of veros

    A shallow embedding of [veros/core/streamfunction/solvers/petsc_.py]
    (class [PETScSolver]) and the properties of its grid partition, its
    five-point stencil assembly, its Dirichlet boundary injection and its
    [solve] facade.

    Modelling conventions.
    - Numbers held in arrays are exact rationals ([Qc], canonical fractions
      with Leibniz equality); rounding of machine floats is outside the model.
    - A one-dimensional array is a list, a two-dimensional array a list of
      rows; the first index (x) selects the row, the second (y) the entry.
      numpy arrays are rectangular; the theorems carry the shapes as
      hypotheses.
    - Integer indexing follows Python: negative indices count from the end and
      an index out of range raises [IndexError]; slices clamp and never raise.
    - Division is the total division of [Qc], with [x / 0 = 0]; numpy gives
      [inf] or [nan] there.  The two agree when the divisors are not zero:
      a statement on the values of the coefficients, not just on their
      formulas, assumes [divisors_nonzero].
    - The Krylov engine (PETSc KSP) and the halo fill [enforce_boundaries] are
      collaborators outside this file: they are section variables. *)

From Stdlib Require Import ZArith QArith Qcanon String DecimalString.
From stdpp Require Import base numbers list option.

(** ** Exceptions and the error monad *)

Inductive exn : Type :=
  | IndexError
  | ZeroDivisionError
  | AttributeError.

Inductive result (A : Type) : Type :=
  | Ok (a : A)
  | Raise (e : exn).
Arguments Ok {A} a.
Arguments Raise {A} e.

Global Instance result_ret : MRet result := λ A, @Ok A.
Global Instance result_bind : MBind result := λ A B f r,
  match r with Ok a => f a | Raise e => Raise e end.

Definition of_option {A} (o : option A) (e : exn) : result A :=
  match o with Some a => Ok a | None => Raise e end.

Fixpoint traverse {A B} (f : A → result B) (l : list A) : result (list B) :=
  match l with
  | [] => Ok []
  | x :: l => y ← f x; ys ← traverse f l; Ok (y :: ys)
  end.

(** ** Python integers, tuples and indexing *)

(** [a // b] *)
Definition floordiv (a b : Z) : result Z :=
  if decide (b = 0%Z) then Raise ZeroDivisionError else Ok (a / b)%Z.

(** [a % b] *)
Definition pymod (a b : Z) : result Z :=
  if decide (b = 0%Z) then Raise ZeroDivisionError else Ok (a mod b)%Z.

(** [(x,) * n]: a tuple of [n] copies, empty when [n <= 0]. *)
Definition tuple_repeat {A} (x : A) (n : Z) : list A := replicate (Z.to_nat n) x.

(** [range(a, b)] *)
Definition range (a b : Z) : list Z := seqZ a (b - a).

(** Position of the integer index [k] in a sequence of length [n]. *)
Definition norm_index (n : nat) (k : Z) : result nat :=
  let k' := if decide (k < 0)%Z then (k + Z.of_nat n)%Z else k in
  if decide (0 ≤ k' < Z.of_nat n)%Z then Ok (Z.to_nat k') else Raise IndexError.

(** Position of the slice bound [k] in a sequence of length [n] (clamped). *)
Definition slice_bound (n : nat) (k : Z) : nat :=
  if decide (k < 0)%Z then Z.to_nat (k + Z.of_nat n) else Z.to_nat (Z.min k (Z.of_nat n)).

(** [l[k]] *)
Definition getitem {A} (l : list A) (k : Z) : result A :=
  i ← norm_index (length l) k; of_option (l !! i) IndexError.

(** [l[a:b]] *)
Definition slice {A} (a b : Z) (l : list A) : list A :=
  let lo := slice_bound (length l) a in
  let hi := slice_bound (length l) b in
  take (hi - lo) (drop lo l).

(** ** Arrays *)

Abbreviation array1 := (list Qc).
Abbreviation array2 := (list (list Qc)).
Abbreviation mask2 := (list (list bool)).

Definition shape {A} (arr : list (list A)) (n m : nat) : Prop :=
  length arr = n ∧ Forall (λ r, length r = m) arr.

(** [arr.shape[1]] *)
Definition ncols {A} (arr : list (list A)) : nat :=
  match arr with [] => 0 | r :: _ => length r end.

(** Cell [(i, j)] of an array, by position. *)
Definition get2 {A} (arr : list (list A)) (i j : nat) : option A :=
  arr !! i ≫= (.!! j).

(** [arr[a:b, c:d]] *)
Definition slice2 {A} (a b c d : Z) (arr : list (list A)) : list (list A) :=
  slice c d <$> slice a b arr.

(** [arr[k, a:b]] *)
Definition getitem_row {A} (arr : list (list A)) (k a b : Z) : result (list A) :=
  r ← getitem arr k; Ok (slice a b r).

(** [arr[a:b, k]] *)
Definition getitem_col (arr : array2) (a b k : Z) : result array1 :=
  c ← norm_index (ncols arr) k;
  Ok ((λ r, default 0%Qc (r !! c)) <$> slice a b arr).

(** [arr[i, j]] *)
Definition getitem2 (arr : array2) (i j : Z) : result Qc :=
  r ← getitem arr i; getitem r j.

(** Elementwise arithmetic of two arrays of one shape. *)
Definition ew (f : Qc → Qc → Qc) (a b : array2) : array2 :=
  zip_with (zip_with f) a b.

(** [a op v[:, newaxis]]: [v] runs along the first axis. *)
Definition ew_col (f : Qc → Qc → Qc) (a : array2) (v : array1) : array2 :=
  zip_with (λ r x, (λ y, f y x) <$> r) a v.

(** [a op v[newaxis, :]]: [v] runs along the second axis. *)
Definition ew_row (f : Qc → Qc → Qc) (a : array2) (v : array1) : array2 :=
  (λ r, zip_with f r v) <$> a.

(** A boolean array used as a number array: [True] is 1, [False] is 0. *)
Definition of_bool (b : bool) : Qc := if b then 1%Qc else 0%Qc.

(** [mask * a] *)
Definition mask_mul (mask : mask2) (a : array2) : array2 :=
  zip_with (zip_with (λ b x, (of_bool b * x)%Qc)) mask a.

(** [npx.all(~m, axis=2)] *)
Definition all_not_axis2 (m : list (list (list bool))) : mask2 :=
  fmap (M := list) (forallb negb) <$> m.

(** [npx.where(c, a, b)] on arrays of one shape. *)
Definition where2 {A} (c : mask2) (a b : list (list A)) : list (list A) :=
  zip_with (λ cr ab, zip_with (λ (x : bool) (y : A * A), if x then y.1 else y.2) cr ab)
           c (zip_with zip a b).

(** ** Array updates ([veros.core.operators]) *)

(** Modelled from the spec: [update_add] and [update] of
    [veros.core.operators], whose source is not part of this development.
    Section 9 of the spec: in-place array updates (add-at-index,
    assign-at-slice) are copy-then-patch operations returning a new buffer.
    Cells outside the addressed region keep their value; the shape never
    changes. *)
Definition add_on_slice (a b : Z) (v r : array1) : array1 :=
  let lo := slice_bound (length r) a in
  let hi := slice_bound (length r) b in
  imap (λ j x, if decide (lo ≤ j < hi) then (x + default 0 (v !! (j - lo)%nat))%Qc else x) r.

(** Modelled from the spec: [update_add(arr, at[k, a:b], v)], the
    add-at-index operator of the absent [veros.core.operators]. *)
Definition update_add_row (arr : array2) (k a b : Z) (v : array1) : result array2 :=
  i ← norm_index (length arr) k;
  Ok (alter (add_on_slice a b v) i arr).

(** Modelled from the spec: [update_add(arr, at[a:b, k], v)], the
    add-at-index operator of the absent [veros.core.operators]. *)
Definition update_add_col (arr : array2) (a b k : Z) (v : array1) : result array2 :=
  c ← norm_index (ncols arr) k;
  let lo := slice_bound (length arr) a in
  let hi := slice_bound (length arr) b in
  Ok (imap (λ i r, if decide (lo ≤ i < hi)
                   then alter (λ x, (x + default 0 (v !! (i - lo)%nat))%Qc) c r
                   else r) arr).

(** Modelled from the spec: [update(arr, at[a:b, c:d], m)], the
    assign-at-slice operator of the absent [veros.core.operators]. *)
Definition update_block (arr : array2) (a b c d : Z) (m : array2) : array2 :=
  let lo := slice_bound (length arr) a in
  let hi := slice_bound (length arr) b in
  imap (λ i r,
    if decide (lo ≤ i < hi) then
      let lo' := slice_bound (length r) c in
      let hi' := slice_bound (length r) d in
      imap (λ j x, if decide (lo' ≤ j < hi') then default x (get2 m (i - lo) (j - lo')) else x) r
    else r) arr.

(** ** Model state, settings and runtime *)

Record Settings : Type := {
  nx : Z;
  ny : Z;
  enable_cyclic_x : bool;
  congr_epsilon : Qc;
  congr_max_iterations : Z;
}.

(** The fields of [state.variables] the solver reads, on the padded grid. *)
Record Variables : Type := {
  hvr : array2;
  hur : array2;
  dxu : array1;
  dxt : array1;
  dyu : array1;
  dyt : array1;
  cosu : array1;
  cost : array1;
  boundary_mask : list (list (list bool));
}.

Record State : Type := {
  settings : Settings;
  variables : Variables;
}.

(** [rs.num_proc] and [rst.proc_idx]. *)
Record Runtime : Type := {
  num_proc : Z * Z;
  proc_idx : Z * Z;
}.

(** ** The distributed array (PETSc DMDA) *)

Inductive BoundaryType : Type := periodic | ghosted.

(** The arguments [__init__] hands to [PETSc.DMDA().create]. *)
Record DMDA : Type := {
  da_sizes : Z * Z;
  da_stencil_width : Z;
  da_proc_sizes : Z * Z;
  da_boundary_type : BoundaryType * BoundaryType;
  da_ownership_ranges : list Z * list Z;
}.

(** Lines 14-30 of [__init__]. *)
Definition create_da (st : Settings) (rs : Runtime) : result DMDA :=
  let boundary_type :=
    if enable_cyclic_x st then (periodic, ghosted) else (ghosted, ghosted) in
  bx ← floordiv (nx st) (num_proc rs).1;
  by_ ← floordiv (ny st) (num_proc rs).2;
  Ok {| da_sizes := (nx st, ny st);
        da_stencil_width := 1;
        da_proc_sizes := num_proc rs;
        da_boundary_type := boundary_type;
        da_ownership_ranges :=
          (tuple_repeat bx (num_proc rs).1, tuple_repeat by_ (num_proc rs).2) |}.

(** The half-open index interval of block [p] in a list of block sizes:
    blocks are laid out one after the other from index 0, which is how the
    DMDA reads its [ownership_ranges] argument. *)
Definition block_range (sizes : list Z) (p : nat) : Z * Z :=
  let start := foldr Z.add 0%Z (take p sizes) in
  (start, (start + default 0 (sizes !! p))%Z).

(** [self._da.getRanges()] on the process at [proc_idx]. *)
Definition getRanges (da : DMDA) (rs : Runtime) : (Z * Z) * (Z * Z) :=
  (block_range (da_ownership_ranges da).1 (Z.to_nat (proc_idx rs).1),
   block_range (da_ownership_ranges da).2 (Z.to_nat (proc_idx rs).2)).

(** ** The sparse operator and its boundary coefficient vectors *)

(** [PETSc.Mat.Stencil]: the grid index of a row or a column. *)
Abbreviation Stencil := (Z * Z)%type.

(** The matrix as the sequence of [setValueStencil(row, col, value)] calls
    that filled it. *)
Abbreviation PetscMat := (list (Stencil * Stencil * Qc)).

(** The dictionary [boundary_scale], one vector per edge. *)
Record BoundaryFac : Type := {
  east : array1;
  west : array1;
  north : array1;
  south : array1;
}.

Definition neg (a : array2) : array2 := fmap (M := list) Qcopp <$> a.
Definition sq (v : array1) : array1 := (λ x, x ^ 2)%Qc <$> v.

Notation "a '/c' v" := (ew_col Qcdiv a v) (at level 40, left associativity).
Notation "a '/r' v" := (ew_row Qcdiv a v) (at level 40, left associativity).
Notation "a '*r' v" := (ew_row Qcmult a v) (at level 40, left associativity).
Notation "a '-e' b" := (ew Qcminus a b) (at level 50, left associativity).

Definition east_diag (vs : Variables) : array2 :=
  slice2 3 (-1) 2 (-2) (hvr vs) /c slice 2 (-2) (dxu vs) /c slice 3 (-1) (dxt vs)
    /r sq (slice 2 (-2) (cosu vs)).

Definition west_diag (vs : Variables) : array2 :=
  slice2 2 (-2) 2 (-2) (hvr vs) /c slice 2 (-2) (dxu vs) /c slice 2 (-2) (dxt vs)
    /r sq (slice 2 (-2) (cosu vs)).

Definition north_diag (vs : Variables) : array2 :=
  slice2 2 (-2) 3 (-1) (hur vs) /r slice 2 (-2) (dyu vs) /r slice 3 (-1) (dyt vs)
    *r slice 3 (-1) (cost vs) /r slice 2 (-2) (cosu vs).

Definition south_diag (vs : Variables) : array2 :=
  slice2 2 (-2) 2 (-2) (hur vs) /r slice 2 (-2) (dyu vs) /r slice 2 (-2) (dyt vs)
    *r slice 2 (-2) (cost vs) /r slice 2 (-2) (cosu vs).

(** The centre coefficient before masking (lines 116-135). *)
Definition main_diag (vs : Variables) : array2 :=
  neg (slice2 3 (-1) 2 (-2) (hvr vs)) /c slice 2 (-2) (dxu vs) /c slice 3 (-1) (dxt vs)
      /r sq (slice 2 (-2) (cosu vs))
  -e slice2 2 (-2) 2 (-2) (hvr vs) /c slice 2 (-2) (dxu vs) /c slice 2 (-2) (dxt vs)
      /r sq (slice 2 (-2) (cosu vs))
  -e slice2 2 (-2) 2 (-2) (hur vs) /r slice 2 (-2) (dyu vs) /r slice 2 (-2) (dyt vs)
      *r slice 2 (-2) (cost vs) /r slice 2 (-2) (cosu vs)
  -e slice2 2 (-2) 3 (-1) (hur vs) /r slice 2 (-2) (dyu vs) /r slice 3 (-1) (dyt vs)
      *r slice 3 (-1) (cost vs) /r slice 2 (-2) (cosu vs).

(** [boundary_mask] of the assembler: true where no level of the column is
    set in [vs.boundary_mask]. *)
Definition interior_mask (vs : Variables) : mask2 :=
  all_not_axis2 (slice2 2 (-2) 2 (-2) (boundary_mask vs)).

(** [main_diag *= boundary_mask] *)
Definition mul_mask (a : array2) (mask : mask2) : array2 :=
  zip_with (zip_with (λ x b, (x * of_bool b)%Qc)) a mask.

(** [npx.where(a == 0.0, 1.0, a)] *)
Definition zero_to_one (a : array2) : array2 :=
  fmap (M := list) (λ x : Qc, if decide (x = 0%Qc) then 1%Qc else x) <$> a.

(** The tuple [cf]: centre, east, west, north, south (lines 157-171). *)
Definition cf_main (vs : Variables) : array2 :=
  zero_to_one (mul_mask (main_diag vs) (interior_mask vs)).
Definition cf_east (vs : Variables) : array2 := mask_mul (interior_mask vs) (east_diag vs).
Definition cf_west (vs : Variables) : array2 := mask_mul (interior_mask vs) (west_diag vs).
Definition cf_north (vs : Variables) : array2 := mask_mul (interior_mask vs) (north_diag vs).
Definition cf_south (vs : Variables) : array2 := mask_mul (interior_mask vs) (south_diag vs).

Definition cf (vs : Variables) : list array2 :=
  [cf_main vs; cf_east vs; cf_west vs; cf_north vs; cf_south vs].

Definition ij_offsets : list (Z * Z) :=
  [(0, 0); (1, 0); (-1, 0); (0, 1); (0, -1)]%Z.

(** The body of the loop over owned cells: the five
    [setValueStencil] calls of row [(i, j)] (lines 181-187). *)
Definition stencil_row (st : Settings) (rs : Runtime) (cf : list array2) (i j : Z)
    : result PetscMat :=
  bx ← floordiv (nx st) (num_proc rs).1;
  iloc ← pymod i bx;
  by_ ← floordiv (ny st) (num_proc rs).2;
  jloc ← pymod j by_;
  traverse (λ '(diag, offset),
              v ← getitem2 diag iloc jloc;
              Ok ((i, j), ((i + offset.1)%Z, (j + offset.2)%Z), v))
           (zip cf ij_offsets).

(** [arr[:, k]] *)
Definition getitem_col_all (arr : array2) (k : Z) : result array1 :=
  c ← norm_index (ncols arr) k;
  Ok ((λ r, default 0%Qc (r !! c)) <$> arr).

Definition _assemble_poisson_matrix (da : DMDA) (rs : Runtime) (state : State)
    : result (PetscMat * BoundaryFac) :=
  let vs := variables state in
  let st := settings state in
  let '((i0, i1), (j0, j1)) := getRanges da rs in
  rows ← traverse (λ j, r ← traverse (λ i, stencil_row st rs (cf vs) i j) (range i0 i1);
                        Ok (concat r))
                  (range j0 j1);
  e ← getitem (cf_east vs) (-1);
  w ← getitem (cf_west vs) 0;
  n ← getitem_col_all (cf_north vs) (-1);
  s ← getitem_col_all (cf_south vs) 0;
  Ok (concat rows, {| east := e; west := w; north := n; south := s |}).

(** ** The Krylov engine and the solver object *)

(** The configuration [__init__] gives the KSP object. *)
Record KSP : Type := {
  ksp_operators : PetscMat;
  ksp_type : string;
  ksp_atol : Qc;
  ksp_rtol : Qc;
  ksp_max_it : Z;
  pc_type : string;
  pc_hypre_type : string;
  pc_hypre_boomeramg_relax_type_all : string;
}.

(** What a call of [ksp.solve] leaves behind: the solution vector,
    [getConvergedReason()] and [getIterationNumber()]. *)
Record KSPOutcome : Type := {
  ksp_solution : array2;
  converged_reason : Z;
  iteration_number : Z;
}.

Record PETScSolver : Type := {
  _da : DMDA;
  _matrix : PetscMat;
  _boundary_fac : BoundaryFac;
  _ksp : KSP;
}.

Definition __init__ (rs : Runtime) (state : State) : result PETScSolver :=
  let st := settings state in
  da ← create_da st rs;
  '(matrix, boundary_fac) ← _assemble_poisson_matrix da rs state;
  Ok {| _da := da;
        _matrix := matrix;
        _boundary_fac := boundary_fac;
        _ksp := {| ksp_operators := matrix;
                   ksp_type := "gmres";
                   ksp_atol := 0;
                   ksp_rtol := congr_epsilon st;
                   ksp_max_it := congr_max_iterations st;
                   pc_type := "hypre";
                   pc_hypre_type := "boomeramg";
                   pc_hypre_boomeramg_relax_type_all := "SOR/Jacobi" |} |}.

(** ** Logging *)

Inductive LogRecord : Type :=
  | Warning (msg : string).

(** [str(n)] of a Python integer. *)
Definition str (n : Z) : string := NilZero.string_of_int (Z.to_int n).

Definition not_converged_message (iterations info : Z) : string :=
  ("Streamfunction solver did not converge after " ++ str iterations
   ++ " iterations (error code: " ++ str info ++ ")")%string.

(** ** Boundary injection and solve *)

(** [-a * b] on vectors of one length. *)
Definition neg_mul (a b : array1) : array1 := zip_with Qcmult (Qcopp <$> a) b.

(** The block "add dirichlet BC to rhs" of [_petsc_solver] (lines 55-67). *)
Definition add_dirichlet_bc (bf : BoundaryFac) (rs : Runtime) (st : Settings)
    (rhs : array2) : result array2 :=
  rhs ← (if negb (enable_cyclic_x st) then
           rhs ← (if decide ((proc_idx rs).1 = (num_proc rs).1 - 1)%Z then
                    nb ← getitem_row rhs (-2) 2 (-2);
                    update_add_row rhs (-3) 2 (-2) (neg_mul nb (east bf))
                  else Ok rhs);
           if decide ((proc_idx rs).1 = 0)%Z then
             nb ← getitem_row rhs 1 2 (-2);
             update_add_row rhs 2 2 (-2) (neg_mul nb (west bf))
           else Ok rhs
         else Ok rhs);
  rhs ← (if decide ((proc_idx rs).2 = (num_proc rs).2 - 1)%Z then
           nb ← getitem_col rhs 2 (-2) (-2);
           update_add_col rhs 2 (-2) (-3) (neg_mul nb (north bf))
         else Ok rhs);
  if decide ((proc_idx rs).2 = 0)%Z then
    nb ← getitem_col rhs 2 (-2) 1;
    update_add_col rhs 2 (-2) 2 (neg_mul nb (south bf))
  else Ok rhs.

(** Lines 97-98 of [solve]: set the right-hand side on boundaries. *)
Definition set_rhs_on_boundaries (vs : Variables) (rhs boundary_val : array2) : array2 :=
  let boundary_mask := all_not_axis2 (boundary_mask vs) in
  where2 boundary_mask rhs boundary_val.

(** The object bound to the parameter [state] of [_petsc_solver]: the
    method is written for a state, and [solve] calls it with the variables
    of the state. *)
Inductive StateArg : Type :=
  | a_state (state : State)
  | a_variables (vs : Variables).

(** [state.settings].  A state has the attribute; the variables of a state
    have the fields of [Variables] and no [settings]. *)
Definition get_settings (state : StateArg) : result Settings :=
  match state with
  | a_state state => Ok (settings state)
  | a_variables _ => Raise AttributeError
  end.

Section Solver.

(** [self._ksp.solve(rhs, sol)] on the interior right-hand side and the
    interior initial guess. *)
Variable ksp_solve : KSP → array2 → array2 → KSPOutcome.

(** [utilities.enforce_boundaries(arr, enable_cyclic_x)], a pure function of
    its arguments (spec, section 6). *)
Variable enforce_boundaries : array2 → bool → array2.

(** [_petsc_solver(self, state, rhs, x0)].  Line 53 reads [state.settings]
    first; the boundary injection, the fill of the two vectors, the engine
    call and the warning follow. *)
Definition _petsc_solver (self : PETScSolver) (rs : Runtime) (state : StateArg)
    (rhs x0 : array2) : result (array2 * list LogRecord) :=
  settings ← get_settings state;
  rhs ← add_dirichlet_bc (_boundary_fac self) rs settings rhs;
  let rhs_petsc := slice2 2 (-2) 2 (-2) rhs in
  let sol_petsc := slice2 2 (-2) 2 (-2) x0 in
  let out := ksp_solve (_ksp self) rhs_petsc sol_petsc in
  let info := converged_reason out in
  let iterations := iteration_number out in
  let log := if decide (info < 0)%Z
             then [Warning (not_converged_message iterations info)] else [] in
  Ok (ksp_solution out, log).

(** Lines 89-98 of [solve]: the default of [boundary_val], the halo fill of
    [x0] and the masked right-hand side.  The result is the pair [(rhs, x0)]
    of local variables as they stand before line 100. *)
Definition solve_arguments (state : State) (rhs x0 : array2)
    (boundary_val : option array2) : array2 * array2 :=
  let vs := variables state in
  let st := settings state in
  let boundary_val := default x0 boundary_val in
  let x0 := enforce_boundaries x0 (enable_cyclic_x st) in
  let rhs := set_rhs_on_boundaries vs rhs boundary_val in
  (rhs, x0).

(** [solve].  Line 100 hands [vs], which is [state.variables], to
    [_petsc_solver] as its [state] argument. *)
Definition solve (self : PETScSolver) (rs : Runtime) (state : State)
    (rhs x0 : array2) (boundary_val : option array2)
    : result (array2 * list LogRecord) :=
  let vs := variables state in
  let '(rhs, x0) := solve_arguments state rhs x0 boundary_val in
  '(linear_solution, log) ← _petsc_solver self rs (a_variables vs) rhs x0;
  Ok (update_block rhs 2 (-2) 2 (-2) linear_solution, log).

End Solver.

(** * Specification vocabulary *)

(** Total readers, used to state what a cell holds. *)
Definition at1 (v : array1) (i : nat) : Qc := default 0%Qc (v !! i).
Definition cell (a : array2) (i j : nat) : Qc := default 0%Qc (get2 a i j).

(** The fields of [vs] have the padded local shape [(n + 4, m + 4)]. *)
Record padded (vs : Variables) (n m : nat) : Prop := {
  padded_hvr : shape (hvr vs) (n + 4) (m + 4);
  padded_hur : shape (hur vs) (n + 4) (m + 4);
  padded_dxu : length (dxu vs) = n + 4;
  padded_dxt : length (dxt vs) = n + 4;
  padded_dyu : length (dyu vs) = m + 4;
  padded_dyt : length (dyt vs) = m + 4;
  padded_cosu : length (cosu vs) = m + 4;
  padded_cost : length (cost vs) = m + 4;
  padded_mask : shape (boundary_mask vs) (n + 4) (m + 4);
}.

(** The transport terms of cell [(i, j)] of the interior, read on the padded
    fields. *)
Definition east_term (vs : Variables) (i j : nat) : Qc :=
  (cell (hvr vs) (i + 3) (j + 2) / at1 (dxu vs) (i + 2) / at1 (dxt vs) (i + 3)
   / at1 (cosu vs) (j + 2) ^ 2)%Qc.
Definition west_term (vs : Variables) (i j : nat) : Qc :=
  (cell (hvr vs) (i + 2) (j + 2) / at1 (dxu vs) (i + 2) / at1 (dxt vs) (i + 2)
   / at1 (cosu vs) (j + 2) ^ 2)%Qc.
Definition north_term (vs : Variables) (i j : nat) : Qc :=
  (cell (hur vs) (i + 2) (j + 3) / at1 (dyu vs) (j + 2) / at1 (dyt vs) (j + 3)
   * at1 (cost vs) (j + 3) / at1 (cosu vs) (j + 2))%Qc.
Definition south_term (vs : Variables) (i j : nat) : Qc :=
  (cell (hur vs) (i + 2) (j + 2) / at1 (dyu vs) (j + 2) / at1 (dyt vs) (j + 2)
   * at1 (cost vs) (j + 2) / at1 (cosu vs) (j + 2))%Qc.

(** Padded cells where some level of [vs.boundary_mask] is set: the cells
    the source treats as land or boundary. *)
Definition land_at (vs : Variables) (i j : nat) : bool :=
  existsb id (default [] (get2 (boundary_mask vs) i j)).

(** The same for the interior cell [(i, j)], which sits at [(i + 2, j + 2)]
    of the padded grid. *)
Definition is_land (vs : Variables) (i j : nat) : bool := land_at vs (i + 2) (j + 2).

(** Padded cells where every level of [vs.boundary_mask] is set. *)
Definition fully_masked (vs : Variables) (i j : nat) : bool :=
  forallb id (default [] (get2 (boundary_mask vs) i j)).

Definition uniform1 (v : array1) (c : Qc) : Prop := Forall (λ x, x = c) v.
Definition uniform2 (a : array2) (c : Qc) : Prop := Forall (λ r, uniform1 r c) a.

(** No level of any column is set in [vs.boundary_mask]. *)
Definition unmasked (vs : Variables) : Prop :=
  Forall (Forall (Forall (λ b : bool, b = false))) (boundary_mask vs).

(** Which edges of the domain this process owns, and whether the injection
    of [_petsc_solver] runs on them. *)
Definition east_active (rs : Runtime) (st : Settings) : bool :=
  negb (enable_cyclic_x st) && bool_decide ((proc_idx rs).1 = (num_proc rs).1 - 1)%Z.
Definition west_active (rs : Runtime) (st : Settings) : bool :=
  negb (enable_cyclic_x st) && bool_decide ((proc_idx rs).1 = 0)%Z.
Definition north_active (rs : Runtime) : bool :=
  bool_decide ((proc_idx rs).2 = (num_proc rs).2 - 1)%Z.
Definition south_active (rs : Runtime) : bool :=
  bool_decide ((proc_idx rs).2 = 0)%Z.

(** One guarded [update_add] on a row, and one on a column. *)
Definition row_update (flag : bool) (rhs : array2) (k' k : Z) (v : array1) : result array2 :=
  if flag then nb ← getitem_row rhs k' 2 (-2); update_add_row rhs k 2 (-2) (neg_mul nb v)
  else Ok rhs.
Definition col_update (flag : bool) (rhs : array2) (k' k : Z) (v : array1) : result array2 :=
  if flag then nb ← getitem_col rhs 2 (-2) k'; update_add_col rhs 2 (-2) k (neg_mul nb v)
  else Ok rhs.

(** The amount the injection subtracts from cell [(i, j)] of the padded
    right-hand side [rhs]: one product per owned edge the cell lies on. *)
Definition injected (bf : BoundaryFac) (rs : Runtime) (st : Settings) (rhs : array2)
    (n m i j : nat) : Qc :=
  ((if decide (east_active rs st = true ∧ (i = n + 1)%nat ∧ (2 ≤ j < m + 2)%nat)
    then cell rhs (n + 2) j * at1 (east bf) (j - 2) else 0)
   + (if decide (west_active rs st = true ∧ i = 2%nat ∧ (2 ≤ j < m + 2)%nat)
      then cell rhs 1 j * at1 (west bf) (j - 2) else 0)
   + (if decide (north_active rs = true ∧ (j = m + 1)%nat ∧ (2 ≤ i < n + 2)%nat)
      then cell rhs i (m + 2) * at1 (north bf) (i - 2) else 0)
   + (if decide (south_active rs = true ∧ j = 2%nat ∧ (2 ≤ i < n + 2)%nat)
      then cell rhs i 1 * at1 (south bf) (i - 2) else 0))%Qc.

(** A string occurs inside another one. *)
Definition contains (s t : string) : Prop :=
  ∃ pre post, s = (pre ++ t ++ post)%string.

(** The log [_petsc_solver] leaves for an engine outcome. *)
Definition solve_log (o : KSPOutcome) : list LogRecord :=
  if decide (converged_reason o < 0)%Z
  then [Warning (not_converged_message (iteration_number o) (converged_reason o))]
  else [].

(** The shapes [_petsc_solver] expects on a local grid of [n] by [m]
    interior cells: a padded right-hand side and boundary vectors as long as
    the edges. *)
Record solver_shapes (self : PETScSolver) (rhs : array2) (n m : nat) : Prop := {
  shapes_n : 0 < n;
  shapes_m : 0 < m;
  shapes_rhs : shape rhs (n + 4) (m + 4);
  shapes_east : length (east (_boundary_fac self)) = m;
  shapes_west : length (west (_boundary_fac self)) = m;
  shapes_north : length (north (_boundary_fac self)) = n;
  shapes_south : length (south (_boundary_fac self)) = n;
}.


(** Index [i] lies in block [p] of a list of block sizes. *)
Definition in_block (sizes : list Z) (p : nat) (i : Z) : Prop :=
  ((block_range sizes p).1 ≤ i < (block_range sizes p).2)%Z.

(** The sum of a list of block sizes: the number of indices they cover. *)
Definition covered (sizes : list Z) : Z := foldr Z.add 0%Z sizes.

(** * Concrete grids, engines and runs *)

Definition const2 (n m : nat) (x : Qc) : array2 := replicate n (replicate m x).

(** A grid of 2 by 2 interior cells with every coefficient field equal to 1
    and a single mask level that is set nowhere. *)
Definition unit_vs : Variables := {|
  hvr := const2 6 6 1%Qc;
  hur := const2 6 6 1%Qc;
  dxu := replicate 6 1%Qc;
  dxt := replicate 6 1%Qc;
  dyu := replicate 6 1%Qc;
  dyt := replicate 6 1%Qc;
  cosu := replicate 6 1%Qc;
  cost := replicate 6 1%Qc;
  boundary_mask := replicate 6 (replicate 6 [false]);
|}.

(** The same grid with its first interior cell, at [(2, 2)] of the padded
    arrays, fully masked. *)
Definition island_vs : Variables := {|
  hvr := hvr unit_vs;
  hur := hur unit_vs;
  dxu := dxu unit_vs;
  dxt := dxt unit_vs;
  dyu := dyu unit_vs;
  dyt := dyt unit_vs;
  cosu := cosu unit_vs;
  cost := cost unit_vs;
  boundary_mask := <[2 := <[2 := [true]]> (replicate 6 [false])]> (replicate 6 (replicate 6 [false]));
|}.

Definition st22 : Settings := {|
  nx := 2;
  ny := 2;
  enable_cyclic_x := false;
  congr_epsilon := 0%Qc;
  congr_max_iterations := 0;
|}.

(** A single process, which owns all four edges. *)
Definition rs11 : Runtime := {| num_proc := (1, 1)%Z; proc_idx := (0, 0)%Z |}.

(** The middle process of a 1 by 3 process grid: it owns the east and the
    west edge only. *)
Definition rs_mid : Runtime := {| num_proc := (1, 3)%Z; proc_idx := (0, 1)%Z |}.

Definition unit_state : State := {| settings := st22; variables := unit_vs |}.
Definition island_state : State := {| settings := st22; variables := island_vs |}.

(** Boundary coefficients with 2 everywhere on the east edge. *)
Definition bf_east2 : BoundaryFac := {|
  east := replicate 2 (Qc_of_Z 2);
  west := replicate 2 1%Qc;
  north := replicate 2 1%Qc;
  south := replicate 2 1%Qc;
|}.

(** An engine that makes no iteration: it hands back the initial guess with
    the reason code of an exhausted iteration budget. *)
Definition ksp_no_progress (k : KSP) (b x : array2) : KSPOutcome :=
  {| ksp_solution := x; converged_reason := -3; iteration_number := 0 |}.


(** A grid of 5 columns on 2 processes along x: 2 does not divide 5. *)
Definition st54 : Settings := {|
  nx := 5;
  ny := 4;
  enable_cyclic_x := false;
  congr_epsilon := 0%Qc;
  congr_max_iterations := 10;
|}.
Definition rs21 : Runtime := {| num_proc := (2, 1)%Z; proc_idx := (0, 0)%Z |}.

(** The local fields of that process: 2 by 4 interior cells. *)
Definition vs54 : Variables := {|
  hvr := const2 6 8 1%Qc;
  hur := const2 6 8 1%Qc;
  dxu := replicate 6 1%Qc;
  dxt := replicate 6 1%Qc;
  dyu := replicate 8 1%Qc;
  dyt := replicate 8 1%Qc;
  cosu := replicate 8 1%Qc;
  cost := replicate 8 1%Qc;
  boundary_mask := replicate 6 (replicate 8 [false]);
|}.
Definition state54 : State := {| settings := st54; variables := vs54 |}.

(** One column with two mask levels, of which only the first is set. *)
Definition two_level_vs : Variables := {|
  hvr := [];
  hur := [];
  dxu := [];
  dxt := [];
  dyu := [];
  dyt := [];
  cosu := [];
  cost := [];
  boundary_mask := [[[true; false]]];
|}.

(** * Vocabulary for the assembled matrix *)

(** The five [setValueStencil] calls of global row [(gi, gj)], carrying the
    coefficients of local cell [(i, j)], in the order of [ij_offsets]. *)
Definition row_entries (vs : Variables) (gi gj : Z) (i j : nat) : PetscMat :=
  [((gi, gj), ((gi + 0)%Z, (gj + 0)%Z), cell (cf_main vs) i j);
   ((gi, gj), ((gi + 1)%Z, (gj + 0)%Z), cell (cf_east vs) i j);
   ((gi, gj), ((gi + -1)%Z, (gj + 0)%Z), cell (cf_west vs) i j);
   ((gi, gj), ((gi + 0)%Z, (gj + 1)%Z), cell (cf_north vs) i j);
   ((gi, gj), ((gi + 0)%Z, (gj + -1)%Z), cell (cf_south vs) i j)].

(** The process index lies inside the process grid. *)
Definition proc_in_grid (rs : Runtime) : Prop :=
  (0 ≤ (proc_idx rs).1 < (num_proc rs).1)%Z ∧ (0 ≤ (proc_idx rs).2 < (num_proc rs).2)%Z.

(** The local grid of the process has [n] by [m] interior cells: the block
    sizes of the decomposition. *)
Definition block_sizes (st : Settings) (rs : Runtime) (n m : nat) : Prop :=
  (nx st / (num_proc rs).1)%Z = Z.of_nat n ∧ (ny st / (num_proc rs).2)%Z = Z.of_nat m.

(** A cell of the padded array lies on the ring of interior cells next to
    the padding. *)
Definition on_ring (n m i j : nat) : Prop :=
  (i = 2 ∨ i = n + 1 ∨ j = 2 ∨ j = m + 1) ∧ 2 ≤ i < n + 2 ∧ 2 ≤ j < m + 2.

(** * The diagnostics base class ([veros/diagnostics/diagnostic.py])

    [VerosDiagnostic] wraps the I/O of a diagnostic. The netCDF helpers of
    [io_tools.netcdf] and the decorators are outside this file: the model
    records the helper calls a method makes, in order, and takes what cannot
    be read off the source ([os.path.isfile], [str.format], the variables a
    file already has, the current time step) as parameters. *)

Module Diagnostic.

Inductive io_exn : Type :=
  | IOError (msg : string)
  | ValueError (msg : string)
  | KeyError (key : string)
  | AttributeError (msg : string)
  | NotImplementedError (msg : string).

Inductive io_result (A : Type) : Type :=
  | Done (a : A)
  | Fail (e : io_exn).
Arguments Done {A} a.
Arguments Fail {A} e.

(** The attributes of the [veros] object the methods read. *)
Record Veros : Type := {
  diskless_mode : bool;
  force_overwrite : bool;
}.

(** The class attributes of a diagnostic; [None] is Python's [None]. *)
Record VerosDiagnostic : Type := {
  name : option string;
  sampling_frequency : Qc;
  output_frequency : Qc;
  output_path : option string;
}.

(** A [Variable] of [veros.variables], as far as the methods look at it. *)
Record Variable_ : Type := {
  time_dependent : bool;
}.

(** A call of a helper of [io_tools.netcdf] on the output file. *)
Inductive NcCall (D : Type) : Type :=
  | threaded_io (path : string) (mode : string)
  | initialize_file
  | add_dimension (dim_id : string) (size : Z)
  | initialize_variable (key : string) (var : Variable_)
  | write_variable (key : string) (var : Variable_) (data : D) (time_step : option Z)
  | advance_time (time_step : Z) (days : Qc).
Arguments threaded_io {D} path mode.
Arguments initialize_file {D}.
Arguments add_dimension {D} dim_id size.
Arguments initialize_variable {D} key var.
Arguments write_variable {D} key var data time_step.
Arguments advance_time {D} time_step days.

(** [d.get(key)] on a dictionary held as its list of items. *)
Fixpoint dict_get {D} (key : string) (d : list (string * D)) : option D :=
  match d with
  | [] => None
  | (k, v) :: d => if String.eqb key k then Some v else dict_get key d
  end.

(** Truth value of a float attribute: [not x] holds for 0. *)
Definition truthy (x : Qc) : bool := negb (bool_decide (x = 0%Qc)).

(** [str(x)] of an attribute that is a string or [None]. *)
Definition str_of (x : option string) : string := default "None"%string x.

(** [_not_implemented]: what each of the five interface methods of the base
    class does. *)
Definition _not_implemented : io_result unit :=
  Fail (NotImplementedError "must be implemented by subclass").

Section Methods.

Context {D : Type}.

(** [s.format] with the attributes of [veros] as keyword arguments. *)
Variable format_vars : string → Veros → io_result string.

(** [os.path.isfile] *)
Variable isfile : string → bool.

(** [key in outfile.variables], as a function of the calls made on the
    file so far. *)
Variable has_variable : list (NcCall D) → string → bool.

(** [nctools.get_current_timestep(veros, outfile)] and the model time in
    days. *)
Variable get_current_timestep : list (NcCall D) → Z.
Variable current_days : Veros → Qc.

Definition get_output_file_name (self : VerosDiagnostic) (veros : Veros) : io_result string :=
  match output_path self with
  | None => Fail (AttributeError "'NoneType' object has no attribute 'format'")
  | Some p => format_vars p veros
  end.

(** The loop over [variables.items()] of [initialize_output] (lines 64-70),
    started with the calls [h] already made. *)
Fixpoint initialize_variables (variables : list (string * Variable_))
    (var_data : option (list (string * D))) (h : list (NcCall D))
    : list (NcCall D) * io_result unit :=
  match variables with
  | [] => (h, Done tt)
  | (key, var) :: variables =>
      let h := if has_variable h key then h else h ++ [initialize_variable key var] in
      if time_dependent var then initialize_variables variables var_data h
      else
        match var_data ≫= dict_get key with
        | None =>
            (h, Fail (ValueError "var_data argument must be given for constant variables"))
        | Some data =>
            initialize_variables variables var_data (h ++ [write_variable key var data None])
        end
  end.

(** [initialize_output]: the helper calls it makes and how it ends. *)
Definition initialize_output (self : VerosDiagnostic) (veros : Veros)
    (variables : list (string * Variable_)) (var_data : option (list (string * D)))
    (extra_dimensions : option (list (string * Z)))
    : list (NcCall D) * io_result unit :=
  if diskless_mode veros
     || (negb (truthy (output_frequency self)) && negb (truthy (sampling_frequency self)))
  then ([], Done tt)
  else
    match get_output_file_name self veros with
    | Fail e => ([], Fail e)
    | Done output_path =>
        if isfile output_path && negb (force_overwrite veros) then
          ([], Fail (IOError ("output file " ++ output_path ++ " for diagnostic '"
                              ++ str_of (name self)
                              ++ "' exists (change output path or enable force_overwrite setting)")))
        else
          let h := [threaded_io output_path "w"; initialize_file] in
          let h := h ++ ((λ '(dim_id, size), add_dimension dim_id size)
                           <$> default [] extra_dimensions) in
          initialize_variables variables var_data h
    end.

(** The loop over [variables.items()] of [write_output] (lines 81-83). *)
Fixpoint write_variables (variables : list (string * Variable_))
    (variable_data : list (string * D)) (time_step : Z) (h : list (NcCall D))
    : list (NcCall D) * io_result unit :=
  match variables with
  | [] => (h, Done tt)
  | (key, var) :: variables =>
      match dict_get key variable_data with
      | None => (h, Fail (KeyError key))
      | Some data =>
          write_variables variables variable_data time_step
            (h ++ [write_variable key var data (Some time_step)])
      end
  end.

(** [write_output] *)
Definition write_output (self : VerosDiagnostic) (veros : Veros)
    (variables : list (string * Variable_)) (variable_data : list (string * D))
    : list (NcCall D) * io_result unit :=
  if diskless_mode veros then ([], Done tt)
  else
    match get_output_file_name self veros with
    | Fail e => ([], Fail e)
    | Done output_path =>
        let h := [threaded_io output_path "r+"] in
        let time_step := get_current_timestep h in
        let h := h ++ [advance_time time_step (current_days veros)] in
        write_variables variables variable_data time_step h
    end.

End Methods.

(** The [write_variable] calls of a call history, in order. *)
Definition writes {D} (h : list (NcCall D)) : list (string * Variable_ * D * option Z) :=
  omap (λ c, match c with
             | write_variable key var data time_step => Some (key, var, data, time_step)
             | _ => None
             end) h.

(** A variable that is constant in time and has no entry in [var_data]. *)
Definition lacks_data {D} (var_data : option (list (string * D)))
    (kv : string * Variable_) : bool :=
  negb (time_dependent kv.2) && bool_decide (var_data ≫= dict_get kv.1 = None).

(** The write a constant variable with data gets from [initialize_output]. *)
Definition constant_write {D} (var_data : option (list (string * D)))
    (kv : string * Variable_) : option (string * Variable_ * D * option Z) :=
  if time_dependent kv.2 then None
  else data ← var_data ≫= dict_get kv.1; Some (kv.1, kv.2, data, None).

(** [initialize_output] gets past its two guards and opens [path]. *)
Definition opens_output (format_vars : string → Veros → io_result string)
    (isfile : string → bool) (self : VerosDiagnostic) (veros : Veros) (path : string)
    : Prop :=
  diskless_mode veros = false ∧
  (truthy (output_frequency self) || truthy (sampling_frequency self)) = true ∧
  get_output_file_name format_vars self veros = Done path ∧
  (isfile path && negb (force_overwrite veros)) = false.

End Diagnostic.

(** * More concrete inputs *)

(** The second of two processes along x. *)
Definition rs21_second : Runtime := {| num_proc := (2, 1)%Z; proc_idx := (1, 0)%Z |}.


(** A diagnostic that writes snapshots, a model run that keeps its files,
    one time-dependent and one constant variable. *)
Definition snapshot : Diagnostic.VerosDiagnostic := {|
  Diagnostic.name := Some "snapshot"%string;
  Diagnostic.sampling_frequency := 0%Qc;
  Diagnostic.output_frequency := 1%Qc;
  Diagnostic.output_path := Some "snapshot.nc"%string;
|}.
Definition keeps_files : Diagnostic.Veros :=
  {| Diagnostic.diskless_mode := false; Diagnostic.force_overwrite := false |}.
Definition two_variables : list (string * Diagnostic.Variable_) :=
  [("temp"%string, {| Diagnostic.time_dependent := true |});
   ("dxt"%string, {| Diagnostic.time_dependent := false |})].

(** A [format] that finds no field to fill in, a file system without files
    and one where every path is a file, and an output file in which no
    variable exists yet. *)
Definition format_plain (s : string) (veros : Diagnostic.Veros) : Diagnostic.io_result string :=
  Diagnostic.Done s.
Definition no_file (path : string) : bool := false.
Definition every_file (path : string) : bool := true.
Definition no_variable (h : list (Diagnostic.NcCall Z)) (key : string) : bool := false.
Definition first_step (h : list (Diagnostic.NcCall Z)) : Z := 0%Z.
Definition day_one (veros : Diagnostic.Veros) : Qc := 1%Qc.

(** * Properties *)

(** ** Indexing and slices *)

Lemma lookup_at1 (v : array1) n i : length v = n → i < n → v !! i = Some (at1 v i).
Proof.
  intros Hl Hi. unfold at1.
  destruct (lookup_lt_is_Some_2 v i) as [x ->]; [lia | done].
Qed.

Lemma shape_lookup {A} (a : list (list A)) n m i :
  shape a n m → i < n → ∃ r, a !! i = Some r ∧ length r = m.
Proof.
  intros [Hl Hf] Hi.
  destruct (lookup_lt_is_Some_2 a i) as [r Hr]; [lia |].
  exists r. split; [done |]. by apply (Forall_lookup_1 _ _ _ _ Hf Hr).
Qed.

Lemma shape_get2 {A} (a : list (list A)) n m i j :
  shape a n m → i < n → j < m → is_Some (get2 a i j).
Proof.
  intros Hs Hi Hj. destruct (shape_lookup a n m i Hs Hi) as (r & Hr & Hlr).
  unfold get2. rewrite Hr. simpl. apply lookup_lt_is_Some_2. lia.
Qed.

Lemma get2_cell (a : array2) n m i j :
  shape a n m → i < n → j < m → get2 a i j = Some (cell a i j).
Proof.
  intros Hs Hi Hj. unfold cell.
  destruct (shape_get2 a n m i j Hs Hi Hj) as [x ->]. done.
Qed.

Lemma shape_ncols {A} (a : list (list A)) n m : shape a n m → 0 < n → ncols a = m.
Proof.
  intros [Hl Hf] Hn. destruct a as [| r a]; simpl in *; [lia |].
  by inversion Hf.
Qed.

Lemma norm_index_nonneg n (k : Z) :
  (0 ≤ k < Z.of_nat n)%Z → norm_index n k = Ok (Z.to_nat k).
Proof.
  intros Hk. unfold norm_index.
  destruct (decide (k < 0)%Z); [lia |]. destruct (decide _); [done | lia].
Qed.

Lemma norm_index_neg n (k : Z) :
  (- Z.of_nat n ≤ k < 0)%Z → norm_index n k = Ok (n - Z.to_nat (- k)).
Proof.
  intros Hk. unfold norm_index.
  destruct (decide (k < 0)%Z); [| lia]. destruct (decide _); [| lia].
  f_equal. lia.
Qed.

Lemma slice_bound_nonneg n (k : Z) :
  (0 ≤ k ≤ Z.of_nat n)%Z → slice_bound n k = Z.to_nat k.
Proof. intros Hk. unfold slice_bound. destruct (decide _); lia. Qed.

Lemma slice_bound_neg n (k : Z) :
  (- Z.of_nat n ≤ k < 0)%Z → slice_bound n k = n - Z.to_nat (- k).
Proof. intros Hk. unfold slice_bound. destruct (decide _); lia. Qed.

Lemma lookup_slice {A} (a b : Z) (l : list A) i :
  slice a b l !! i =
  if decide (i < slice_bound (length l) b - slice_bound (length l) a)
  then l !! (slice_bound (length l) a + i) else None.
Proof. unfold slice. rewrite lookup_take. destruct (decide _); [apply lookup_drop | done]. Qed.

Lemma length_slice {A} (a b : Z) (l : list A) :
  length (slice a b l) = slice_bound (length l) b - slice_bound (length l) a.
Proof.
  unfold slice. rewrite length_take, length_drop.
  assert (slice_bound (length l) b ≤ length l); [| lia].
  unfold slice_bound. destruct (decide _); lia.
Qed.

(** The interior slice [2:-2] and the shifted slice [3:-1] of a padded axis
    of length [n + 4]. *)
Lemma lookup_slice_2 {A} (l : list A) n i :
  length l = n + 4 →
  slice 2 (-2) l !! i = if decide (i < n) then l !! (i + 2) else None.
Proof.
  intros Hl. rewrite lookup_slice, Hl.
  rewrite (slice_bound_nonneg _ 2), (slice_bound_neg _ (-2)) by lia.
  replace (n + 4 - Z.to_nat (- -2) - Z.to_nat 2) with n by lia.
  destruct (decide _); [| done]. f_equal. lia.
Qed.

Lemma lookup_slice_3 {A} (l : list A) n i :
  length l = n + 4 →
  slice 3 (-1) l !! i = if decide (i < n) then l !! (i + 3) else None.
Proof.
  intros Hl. rewrite lookup_slice, Hl.
  rewrite (slice_bound_nonneg _ 3), (slice_bound_neg _ (-1)) by lia.
  replace (n + 4 - Z.to_nat (- -1) - Z.to_nat 3) with n by lia.
  destruct (decide _); [| done]. f_equal. lia.
Qed.

Lemma length_slice_2 {A} (l : list A) n : length l = n + 4 → length (slice 2 (-2) l) = n.
Proof.
  intros Hl. rewrite length_slice, Hl.
  rewrite (slice_bound_nonneg _ 2), (slice_bound_neg _ (-2)) by lia. lia.
Qed.

Lemma length_slice_3 {A} (l : list A) n : length l = n + 4 → length (slice 3 (-1) l) = n.
Proof.
  intros Hl. rewrite length_slice, Hl.
  rewrite (slice_bound_nonneg _ 3), (slice_bound_neg _ (-1)) by lia. lia.
Qed.

Lemma at1_slice_2 (v : array1) n i :
  length v = n + 4 → i < n → slice 2 (-2) v !! i = Some (at1 v (i + 2)).
Proof.
  intros Hl Hi. rewrite (lookup_slice_2 v n) by done.
  destruct (decide _); [| lia]. apply (lookup_at1 v (n + 4)); [done | lia].
Qed.

Lemma at1_slice_3 (v : array1) n i :
  length v = n + 4 → i < n → slice 3 (-1) v !! i = Some (at1 v (i + 3)).
Proof.
  intros Hl Hi. rewrite (lookup_slice_3 v n) by done.
  destruct (decide _); [| lia]. apply (lookup_at1 v (n + 4)); [done | lia].
Qed.

(** Cells of the four two-dimensional slices the assembler takes. *)
Lemma get2_slice2 {A} (sx sy : Z) (ox oy : nat) (a : list (list A)) n m i j :
  (∀ B (l : list B) k, length l = n + 4 →
     slice sx (sx - 4) l !! k = if decide (k < n) then l !! (k + ox) else None) →
  (∀ B (l : list B) k, length l = m + 4 →
     slice sy (sy - 4) l !! k = if decide (k < m) then l !! (k + oy) else None) →
  shape a (n + 4) (m + 4) → i < n → j < m →
  get2 (slice2 sx (sx - 4) sy (sy - 4) a) i j = get2 a (i + ox) (j + oy).
Proof.
  intros Hx Hy [Hl Hf] Hi Hj. unfold get2, slice2.
  rewrite list_lookup_fmap, Hx by done.
  destruct (decide _); [| lia].
  destruct (a !! (i + ox)) as [r |] eqn:Hr; [| done]. simpl.
  rewrite Hy by apply (Forall_lookup_1 _ _ _ _ Hf Hr).
  destruct (decide _); [done | lia].
Qed.

Lemma get2_slice2_22 {A} (a : list (list A)) n m i j :
  shape a (n + 4) (m + 4) → i < n → j < m →
  get2 (slice2 2 (-2) 2 (-2) a) i j = get2 a (i + 2) (j + 2).
Proof.
  apply (get2_slice2 2 2 2 2); intros; by apply lookup_slice_2.
Qed.

Lemma get2_slice2_32 {A} (a : list (list A)) n m i j :
  shape a (n + 4) (m + 4) → i < n → j < m →
  get2 (slice2 3 (-1) 2 (-2) a) i j = get2 a (i + 3) (j + 2).
Proof.
  apply (get2_slice2 3 2 3 2); intros; by (apply lookup_slice_2 || apply lookup_slice_3).
Qed.

Lemma get2_slice2_23 {A} (a : list (list A)) n m i j :
  shape a (n + 4) (m + 4) → i < n → j < m →
  get2 (slice2 2 (-2) 3 (-1) a) i j = get2 a (i + 2) (j + 3).
Proof.
  apply (get2_slice2 2 3 2 3); intros; by (apply lookup_slice_2 || apply lookup_slice_3).
Qed.

Lemma shape_slice2_22 {A} (a : list (list A)) n m :
  shape a (n + 4) (m + 4) → shape (slice2 2 (-2) 2 (-2) a) n m.
Proof.
  intros [Hl Hf]. split.
  - unfold slice2. rewrite length_fmap. by apply length_slice_2.
  - unfold slice2. apply Forall_fmap, Forall_lookup_2. intros i r Hr. simpl.
    rewrite (lookup_slice_2 a n) in Hr by done. destruct (decide _); [| done].
    apply length_slice_2. apply (Forall_lookup_1 _ _ _ _ Hf Hr).
Qed.

(** ** Cells of elementwise operations *)

Lemma get2_ew f (a b : array2) i j x y :
  get2 a i j = Some x → get2 b i j = Some y → get2 (ew f a b) i j = Some (f x y).
Proof.
  unfold get2, ew. intros Ha Hb. rewrite lookup_zip_with.
  destruct (a !! i) as [ra |]; [| done]. destruct (b !! i) as [rb |]; [| done].
  simpl in *. rewrite lookup_zip_with, Ha, Hb. done.
Qed.

Lemma get2_ew_col f (a : array2) (v : array1) i j x y :
  get2 a i j = Some x → v !! i = Some y → get2 (ew_col f a v) i j = Some (f x y).
Proof.
  unfold get2, ew_col. intros Ha Hv. rewrite lookup_zip_with, Hv.
  destruct (a !! i) as [ra |]; [| done]. simpl in *.
  rewrite list_lookup_fmap, Ha. done.
Qed.

Lemma get2_ew_row f (a : array2) (v : array1) i j x y :
  get2 a i j = Some x → v !! j = Some y → get2 (ew_row f a v) i j = Some (f x y).
Proof.
  unfold get2, ew_row. intros Ha Hv. rewrite list_lookup_fmap.
  destruct (a !! i) as [ra |]; [| done]. simpl in *.
  rewrite lookup_zip_with, Ha, Hv. done.
Qed.

Lemma get2_fmap {A B} (g : A → B) (a : list (list A)) i j :
  get2 (fmap (M := list) g <$> a) i j = g <$> get2 a i j.
Proof.
  unfold get2. rewrite list_lookup_fmap.
  destruct (a !! i) as [ra |]; [| done]. simpl. apply list_lookup_fmap.
Qed.

Lemma get2_neg (a : array2) i j x :
  get2 a i j = Some x → get2 (neg a) i j = Some (- x)%Qc.
Proof. intros Ha. unfold neg. by rewrite get2_fmap, Ha. Qed.

Lemma lookup_sq (v : array1) i x : v !! i = Some x → sq v !! i = Some (x ^ 2)%Qc.
Proof. intros Hv. unfold sq. by rewrite list_lookup_fmap, Hv. Qed.

Lemma get2_mask_mul (mask : mask2) (a : array2) i j b x :
  get2 mask i j = Some b → get2 a i j = Some x →
  get2 (mask_mul mask a) i j = Some (of_bool b * x)%Qc.
Proof.
  unfold get2, mask_mul. intros Hm Ha. rewrite lookup_zip_with.
  destruct (mask !! i) as [rm |]; [| done]. destruct (a !! i) as [ra |]; [| done].
  simpl in *. rewrite lookup_zip_with, Hm, Ha. done.
Qed.

Lemma get2_mul_mask (a : array2) (mask : mask2) i j b x :
  get2 a i j = Some x → get2 mask i j = Some b →
  get2 (mul_mask a mask) i j = Some (x * of_bool b)%Qc.
Proof.
  unfold get2, mul_mask. intros Ha Hm. rewrite lookup_zip_with.
  destruct (a !! i) as [ra |]; [| done]. destruct (mask !! i) as [rm |]; [| done].
  simpl in *. rewrite lookup_zip_with, Ha, Hm. done.
Qed.

Lemma get2_zero_to_one (a : array2) i j x :
  get2 a i j = Some x →
  get2 (zero_to_one a) i j = Some (if decide (x = 0%Qc) then 1%Qc else x).
Proof. intros Ha. unfold zero_to_one. by rewrite get2_fmap, Ha. Qed.

Lemma get2_where2 {A} (c : mask2) (a b : list (list A)) i j :
  get2 (where2 c a b) i j =
  m ← get2 c i j; x ← get2 a i j; y ← get2 b i j; Some (if m : bool then x else y).
Proof.
  unfold get2, where2. rewrite !lookup_zip_with.
  destruct (c !! i) as [rc |]; [| done]. simpl.
  destruct (a !! i) as [ra |]; [| by destruct (rc !! j)]. simpl.
  destruct (b !! i) as [rb |]; [| by destruct (rc !! j), (ra !! j)]. simpl.
  rewrite !lookup_zip_with.
  destruct (rc !! j); [| done]. simpl.
  destruct (ra !! j); [| done]. simpl. by destruct (rb !! j).
Qed.

Lemma get2_all_not_axis2 (m : list (list (list bool))) i j :
  get2 (all_not_axis2 m) i j = forallb negb <$> get2 m i j.
Proof. apply get2_fmap. Qed.

(** ** The stencil terms, cell by cell *)

Ltac cell_step :=
  first
    [ eapply get2_ew | eapply get2_ew_col | eapply get2_ew_row | eapply get2_neg
    | eapply lookup_sq
    | erewrite get2_slice2_22 by eassumption; eapply get2_cell; [eassumption | lia | lia]
    | erewrite get2_slice2_32 by eassumption; eapply get2_cell; [eassumption | lia | lia]
    | erewrite get2_slice2_23 by eassumption; eapply get2_cell; [eassumption | lia | lia]
    | eapply at1_slice_2; [eassumption | lia]
    | eapply at1_slice_3; [eassumption | lia] ].

Ltac cells vs H := destruct H; repeat cell_step.

Lemma get2_east_diag vs n m i j :
  padded vs n m → i < n → j < m → get2 (east_diag vs) i j = Some (east_term vs i j).
Proof. intros H Hi Hj. unfold east_diag, east_term. cells vs H. Qed.

Lemma get2_west_diag vs n m i j :
  padded vs n m → i < n → j < m → get2 (west_diag vs) i j = Some (west_term vs i j).
Proof. intros H Hi Hj. unfold west_diag, west_term. cells vs H. Qed.

Lemma get2_north_diag vs n m i j :
  padded vs n m → i < n → j < m → get2 (north_diag vs) i j = Some (north_term vs i j).
Proof. intros H Hi Hj. unfold north_diag, north_term. cells vs H. Qed.

Lemma get2_south_diag vs n m i j :
  padded vs n m → i < n → j < m → get2 (south_diag vs) i j = Some (south_term vs i j).
Proof. intros H Hi Hj. unfold south_diag, south_term. cells vs H. Qed.

Lemma get2_main_diag_raw vs n m i j :
  padded vs n m → i < n → j < m →
  get2 (main_diag vs) i j =
  Some (- cell (hvr vs) (i + 3) (j + 2) / at1 (dxu vs) (i + 2) / at1 (dxt vs) (i + 3)
          / at1 (cosu vs) (j + 2) ^ 2
        - west_term vs i j - south_term vs i j - north_term vs i j)%Qc.
Proof.
  intros H Hi Hj. unfold main_diag, west_term, south_term, north_term. cells vs H.
Qed.
Lemma forallb_negb_existsb (l : list bool) : forallb negb l = negb (existsb id l).
Proof. induction l as [| [] l IH]; simpl; auto. Qed.

Lemma get2_interior_mask vs n m i j :
  padded vs n m → i < n → j < m →
  get2 (interior_mask vs) i j = Some (negb (is_land vs i j)).
Proof.
  intros H Hi Hj. unfold interior_mask, is_land, land_at.
  rewrite get2_all_not_axis2, (get2_slice2_22 _ n m) by (done || apply H).
  destruct (shape_get2 (boundary_mask vs) (n + 4) (m + 4) (i + 2) (j + 2))
    as [l ->]; [apply H | lia | lia |].
  simpl. by rewrite forallb_negb_existsb.
Qed.

Lemma get2_cf_east vs n m i j :
  padded vs n m → i < n → j < m →
  get2 (cf_east vs) i j = Some (of_bool (negb (is_land vs i j)) * east_term vs i j)%Qc.
Proof.
  intros H Hi Hj. unfold cf_east.
  by apply get2_mask_mul; [eapply get2_interior_mask | eapply get2_east_diag].
Qed.

Lemma get2_cf_west vs n m i j :
  padded vs n m → i < n → j < m →
  get2 (cf_west vs) i j = Some (of_bool (negb (is_land vs i j)) * west_term vs i j)%Qc.
Proof.
  intros H Hi Hj. unfold cf_west.
  by apply get2_mask_mul; [eapply get2_interior_mask | eapply get2_west_diag].
Qed.

Lemma get2_cf_north vs n m i j :
  padded vs n m → i < n → j < m →
  get2 (cf_north vs) i j = Some (of_bool (negb (is_land vs i j)) * north_term vs i j)%Qc.
Proof.
  intros H Hi Hj. unfold cf_north.
  by apply get2_mask_mul; [eapply get2_interior_mask | eapply get2_north_diag].
Qed.

Lemma get2_cf_south vs n m i j :
  padded vs n m → i < n → j < m →
  get2 (cf_south vs) i j = Some (of_bool (negb (is_land vs i j)) * south_term vs i j)%Qc.
Proof.
  intros H Hi Hj. unfold cf_south.
  by apply get2_mask_mul; [eapply get2_interior_mask | eapply get2_south_diag].
Qed.

Lemma get2_cf_main vs n m i j :
  padded vs n m → i < n → j < m →
  ∃ c, get2 (main_diag vs) i j = Some c ∧
       get2 (cf_main vs) i j =
       Some (let c' := (c * of_bool (negb (is_land vs i j)))%Qc in
             if decide (c' = 0%Qc) then 1%Qc else c').
Proof.
  intros H Hi Hj. eexists. split; [by eapply get2_main_diag_raw |].
  unfold cf_main. apply get2_zero_to_one.
  by apply get2_mul_mask; [eapply get2_main_diag_raw | eapply get2_interior_mask].
Qed.

(** ** C6: the centre coefficient is minus the sum of the four terms *)

(** C6. On every interior cell [(i, j)] of the local grid the four
    off-diagonal arrays hold the positive transport terms: east and west are
    [hvr / dxu / dxt] times [1 / cosu^2], north and south are
    [hur / dyu / dyt] times [cost / cosu]; and the centre coefficient before
    masking is minus the sum of these four terms. *)
Theorem main_diag_is_minus_sum_of_terms (vs : Variables) (n m i j : nat) :
  padded vs n m → i < n → j < m →
  let e := (cell (hvr vs) (i + 3) (j + 2) / at1 (dxu vs) (i + 2) / at1 (dxt vs) (i + 3)
            * (1 / at1 (cosu vs) (j + 2) ^ 2))%Qc in
  let w := (cell (hvr vs) (i + 2) (j + 2) / at1 (dxu vs) (i + 2) / at1 (dxt vs) (i + 2)
            * (1 / at1 (cosu vs) (j + 2) ^ 2))%Qc in
  let no := (cell (hur vs) (i + 2) (j + 3) / at1 (dyu vs) (j + 2) / at1 (dyt vs) (j + 3)
             * (at1 (cost vs) (j + 3) / at1 (cosu vs) (j + 2)))%Qc in
  let so := (cell (hur vs) (i + 2) (j + 2) / at1 (dyu vs) (j + 2) / at1 (dyt vs) (j + 2)
             * (at1 (cost vs) (j + 2) / at1 (cosu vs) (j + 2)))%Qc in
  get2 (east_diag vs) i j = Some e ∧
  get2 (west_diag vs) i j = Some w ∧
  get2 (north_diag vs) i j = Some no ∧
  get2 (south_diag vs) i j = Some so ∧
  get2 (main_diag vs) i j = Some (- (e + w + no + so))%Qc.
Proof.
  intros H Hi Hj. cbv zeta.
  rewrite (get2_east_diag vs n m), (get2_west_diag vs n m), (get2_north_diag vs n m),
    (get2_south_diag vs n m), (get2_main_diag_raw vs n m) by done.
  unfold east_term, west_term, north_term, south_term, Qcdiv.
  repeat split; f_equal; ring.
Qed.

(** ** C9: symmetry under uniform coefficients *)

Lemma uniform1_at1 v c n i : uniform1 v c → length v = n → i < n → at1 v i = c.
Proof.
  intros Hu Hl Hi. unfold at1.
  destruct (lookup_lt_is_Some_2 v i) as [x Hx]; [lia |].
  rewrite Hx. simpl. apply (Forall_lookup_1 _ _ _ _ Hu Hx).
Qed.

Lemma uniform2_cell a c n m i j : uniform2 a c → shape a n m → i < n → j < m → cell a i j = c.
Proof.
  intros Hu Hs Hi Hj. destruct (shape_lookup a n m i Hs Hi) as (r & Hr & Hlr).
  unfold cell, get2. rewrite Hr. simpl.
  apply (uniform1_at1 r c m j); [| done | done].
  apply (Forall_lookup_1 _ _ _ _ Hu Hr).
Qed.

Lemma unmasked_not_land vs n m i j :
  unmasked vs → padded vs n m → i < n → j < m → is_land vs i j = false.
Proof.
  intros Hu H Hi Hj. unfold is_land, land_at.
  destruct (shape_lookup (boundary_mask vs) (n + 4) (m + 4) (i + 2)) as (r & Hr & Hlr);
    [apply H | lia |].
  unfold get2. rewrite Hr. simpl.
  destruct (lookup_lt_is_Some_2 r (j + 2)) as [l Hl]; [lia |]. rewrite Hl. simpl.
  assert (Forall (λ b : bool, b = false) l) as Hall.
  { eapply Forall_lookup_1; [| exact Hl]. eapply Forall_lookup_1; [exact Hu | exact Hr]. }
  clear Hl. induction Hall as [| b l -> _ IH]; simpl; auto.
Qed.

(** C9. With every coefficient field uniform and no cell masked, the east
    coefficient of cell [(i, j)] is the west coefficient of its eastern
    neighbour, and the north coefficient of [(i, j)] is the south coefficient
    of its northern neighbour; neighbours are taken periodically, so the
    statement covers the wrap-around pairs as well as the inner ones. *)
Theorem uniform_operator_symmetric (vs : Variables) (n m i j : nat)
    (chvr chur cdxu cdxt cdyu cdyt ccosu ccost : Qc) :
  padded vs n m →
  uniform2 (hvr vs) chvr → uniform2 (hur vs) chur →
  uniform1 (dxu vs) cdxu → uniform1 (dxt vs) cdxt →
  uniform1 (dyu vs) cdyu → uniform1 (dyt vs) cdyt →
  uniform1 (cosu vs) ccosu → uniform1 (cost vs) ccost →
  unmasked vs →
  i < n → j < m →
  (∃ e, get2 (cf_east vs) i j = Some e ∧ get2 (cf_west vs) ((i + 1) `mod` n) j = Some e) ∧
  (∃ c, get2 (cf_north vs) i j = Some c ∧ get2 (cf_south vs) i ((j + 1) `mod` m) = Some c).
Proof.
  intros H Hhvr Hhur Hdxu Hdxt Hdyu Hdyt Hcosu Hcost Hun Hi Hj.
  assert ((i + 1) `mod` n < n) as Hi' by (apply Nat.mod_upper_bound; lia).
  assert ((j + 1) `mod` m < m) as Hj' by (apply Nat.mod_upper_bound; lia).
  rewrite (get2_cf_east vs n m), (get2_cf_west vs n m), (get2_cf_north vs n m),
    (get2_cf_south vs n m) by done.
  rewrite !(unmasked_not_land vs n m) by done.
  unfold east_term, west_term, north_term, south_term.
  destruct H.
  rewrite !(uniform2_cell (hvr vs) chvr (n + 4) (m + 4)) by (done || lia).
  rewrite !(uniform2_cell (hur vs) chur (n + 4) (m + 4)) by (done || lia).
  rewrite !(uniform1_at1 (dxu vs) cdxu (n + 4)) by (done || lia).
  rewrite !(uniform1_at1 (dxt vs) cdxt (n + 4)) by (done || lia).
  rewrite !(uniform1_at1 (dyu vs) cdyu (m + 4)) by (done || lia).
  rewrite !(uniform1_at1 (dyt vs) cdyt (m + 4)) by (done || lia).
  rewrite !(uniform1_at1 (cosu vs) ccosu (m + 4)) by (done || lia).
  rewrite !(uniform1_at1 (cost vs) ccost (m + 4)) by (done || lia).
  split; eexists; split; reflexivity.
Qed.

(** ** Boundary injection *)

Lemma result_bind_assoc {A B C} (r : result A) (f : A → result B) (g : B → result C) :
  (r ≫= f) ≫= g = r ≫= (λ x, f x ≫= g).
Proof. by destruct r. Qed.

Lemma add_dirichlet_bc_steps bf rs st rhs :
  add_dirichlet_bc bf rs st rhs =
  (rhs ← row_update (east_active rs st) rhs (-2) (-3) (east bf);
   rhs ← row_update (west_active rs st) rhs 1 2 (west bf);
   rhs ← col_update (north_active rs) rhs (-2) (-3) (north bf);
   col_update (south_active rs) rhs 1 2 (south bf)).
Proof.
  unfold add_dirichlet_bc, east_active, west_active, north_active, south_active,
    row_update, col_update.
  rewrite !bool_decide_decide.
  destruct (enable_cyclic_x st), (decide ((proc_idx rs).1 = (num_proc rs).1 - 1)%Z),
    (decide ((proc_idx rs).1 = 0)%Z), (decide ((proc_idx rs).2 = (num_proc rs).2 - 1)%Z),
    (decide ((proc_idx rs).2 = 0)%Z); simpl; try done;
    rewrite ?result_bind_assoc; try done.
Qed.

Lemma cell_in_shape (a : array2) n m i j :
  shape a n m → i < n → j < m → ∃ r, a !! i = Some r ∧ length r = m ∧ r !! j = Some (cell a i j).
Proof.
  intros Hs Hi Hj. destruct (shape_lookup a n m i Hs Hi) as (r & Hr & Hlr).
  exists r. repeat split; [done | done |].
  unfold cell, get2. rewrite Hr. simpl.
  destruct (lookup_lt_is_Some_2 r j) as [x ->]; [lia | done].
Qed.

Lemma cell_lookup (a : array2) i j r : a !! i = Some r → cell a i j = at1 r j.
Proof. intros Hr. unfold cell, at1, get2. by rewrite Hr. Qed.

Lemma lookup_neg_mul (nb v : array1) k x y :
  nb !! k = Some x → v !! k = Some y → neg_mul nb v !! k = Some (- x * y)%Qc.
Proof.
  intros Hx Hy. unfold neg_mul. by rewrite lookup_zip_with, list_lookup_fmap, Hx, Hy.
Qed.

Lemma norm_index_lt n k r : norm_index n k = Ok r → r < n.
Proof. unfold norm_index. intros H. repeat case_decide; simplify_eq; lia. Qed.

Lemma row_update_spec (flag : bool) (rhs : array2) (n m : nat) (k' k : Z) (r' r : nat)
    (v : array1) :
  shape rhs (n + 4) (m + 4) → length v = m →
  norm_index (n + 4) k' = Ok r' → norm_index (n + 4) k = Ok r →
  ∃ rhs', row_update flag rhs k' k v = Ok rhs' ∧ shape rhs' (n + 4) (m + 4) ∧
    ∀ i j, i < n + 4 → j < m + 4 →
      cell rhs' i j =
      (cell rhs i j -
       (if decide (flag = true ∧ i = r ∧ (2 ≤ j < m + 2)%nat)
        then cell rhs r' j * at1 v (j - 2) else 0))%Qc.
Proof.
  intros Hs Hv Hk' Hk. destruct flag; unfold row_update.
  2:{ exists rhs. repeat split; try apply Hs. intros i j _ _.
      rewrite decide_False by (by intros [? _]). ring. }
  pose proof (norm_index_lt _ _ _ Hk') as Hr'.
  pose proof (norm_index_lt _ _ _ Hk) as Hr.
  destruct (shape_lookup rhs _ _ r' Hs Hr') as (row' & Hrow' & Hlrow').
  unfold getitem_row, getitem, update_add_row.
  rewrite (proj1 Hs), Hk', Hk. simpl. rewrite Hrow'. simpl.
  eexists. split; [reflexivity |]. split.
  - split; [by rewrite length_alter; apply Hs |].
    apply Forall_lookup_2. intros i x. rewrite list_lookup_alter.
    case_decide as Hd; intros Hx.
    + subst i. destruct (rhs !! r) as [row |] eqn:Hrow; [| done]. simpl in Hx. simplify_eq.
      unfold add_on_slice. rewrite length_imap.
      apply (Forall_lookup_1 _ _ _ _ (proj2 Hs) Hrow).
    + apply (Forall_lookup_1 _ _ _ _ (proj2 Hs) Hx).
  - intros i j Hi Hj.
    destruct (cell_in_shape rhs _ _ i j Hs Hi Hj) as (row & Hrow & Hlrow & Hc).
    unfold cell at 1. unfold get2. rewrite list_lookup_alter.
    destruct (decide (r = i)) as [-> | Hne].
    + rewrite Hrow. simpl. unfold add_on_slice. rewrite list_lookup_imap, Hc, Hlrow. simpl.
      rewrite (slice_bound_nonneg _ 2), (slice_bound_neg _ (-2)) by lia.
      destruct (decide (Z.to_nat 2 ≤ j < m + 4 - Z.to_nat (- -2))) as [Hin | Hout].
      * rewrite decide_True by lia.
        rewrite (lookup_neg_mul _ _ _ (cell rhs r' j) (at1 v (j - 2))).
        -- simpl. ring.
        -- rewrite (lookup_slice_2 row' m) by done. rewrite decide_True by lia.
           rewrite (cell_lookup rhs r' j row' Hrow').
           replace (j - Z.to_nat 2 + 2) with j by lia.
           apply (lookup_at1 row' (m + 4)); [done | lia].
        -- replace (j - Z.to_nat 2) with (j - 2) by lia.
           apply (lookup_at1 v m); [done | lia].
      * rewrite decide_False by lia. ring.
    + rewrite Hrow. simpl. rewrite Hc. simpl.
      rewrite decide_False by lia. ring.
Qed.

Lemma col_update_spec (flag : bool) (rhs : array2) (n m : nat) (k' k : Z) (c' c : nat)
    (v : array1) :
  shape rhs (n + 4) (m + 4) → length v = n →
  norm_index (m + 4) k' = Ok c' → norm_index (m + 4) k = Ok c →
  ∃ rhs', col_update flag rhs k' k v = Ok rhs' ∧ shape rhs' (n + 4) (m + 4) ∧
    ∀ i j, i < n + 4 → j < m + 4 →
      cell rhs' i j =
      (cell rhs i j -
       (if decide (flag = true ∧ j = c ∧ (2 ≤ i < n + 2)%nat)
        then cell rhs i c' * at1 v (i - 2) else 0))%Qc.
Proof.
  intros Hs Hv Hk' Hk. destruct flag; unfold col_update.
  2:{ exists rhs. repeat split; try apply Hs. intros i j _ _.
      rewrite decide_False by (by intros [? _]). ring. }
  pose proof (norm_index_lt _ _ _ Hk') as Hc'.
  pose proof (norm_index_lt _ _ _ Hk) as Hc.
  unfold getitem_col, update_add_col.
  rewrite (shape_ncols rhs (n + 4) (m + 4)) by (done || lia).
  rewrite Hk', Hk, (proj1 Hs). simpl.
  rewrite (slice_bound_nonneg _ 2), (slice_bound_neg _ (-2)) by lia.
  eexists. split; [reflexivity |]. split.
  - split; [by rewrite length_imap; apply Hs |].
    apply Forall_lookup_2. intros i x. rewrite list_lookup_imap.
    destruct (rhs !! i) as [row |] eqn:Hrow; [| done]. simpl. intros Hx.
    pose proof (Forall_lookup_1 _ _ _ _ (proj2 Hs) Hrow) as Hlrow. simpl in Hlrow.
    case_decide; simplify_eq; [by rewrite length_alter | done].
  - intros i j Hi Hj.
    destruct (cell_in_shape rhs _ _ i j Hs Hi Hj) as (row & Hrow & Hlrow & Hcell).
    unfold cell at 1. unfold get2. rewrite list_lookup_imap, Hrow. simpl.
    destruct (decide (Z.to_nat 2 ≤ i < n + 4 - Z.to_nat (- -2))) as [Hin | Hout].
    + rewrite list_lookup_alter. destruct (decide (c = j)) as [-> | Hne].
      * rewrite Hcell. simpl. rewrite decide_True by lia.
        rewrite (lookup_neg_mul _ _ _ (cell rhs i c') (at1 v (i - 2))).
        -- simpl. ring.
        -- rewrite list_lookup_fmap, (lookup_slice_2 rhs n) by apply Hs.
           rewrite decide_True by lia.
           replace (i - Z.to_nat 2 + 2) with i by lia. rewrite Hrow. simpl.
           by rewrite (cell_lookup rhs i c' row Hrow).
        -- replace (i - Z.to_nat 2) with (i - 2) by lia.
           apply (lookup_at1 v n); [done | lia].
      * rewrite Hcell. simpl. rewrite decide_False by lia. ring.
    + rewrite Hcell. simpl. rewrite decide_False by lia. ring.
Qed.

(** ** What the boundary injection does to the right-hand side *)

Lemma add_dirichlet_bc_spec (bf : BoundaryFac) (rs : Runtime) (st : Settings)
    (rhs : array2) (n m : nat) :
  0 < n → 0 < m → shape rhs (n + 4) (m + 4) →
  length (east bf) = m → length (west bf) = m →
  length (north bf) = n → length (south bf) = n →
  ∃ rhs', add_dirichlet_bc bf rs st rhs = Ok rhs' ∧ shape rhs' (n + 4) (m + 4) ∧
    ∀ i j, i < n + 4 → j < m + 4 →
      cell rhs' i j = (cell rhs i j - injected bf rs st rhs n m i j)%Qc.
Proof.
  intros Hn Hm Hs He Hw Hno Hso. rewrite add_dirichlet_bc_steps.
  destruct (row_update_spec (east_active rs st) rhs n m (-2) (-3) (n + 2) (n + 1) (east bf))
    as (rhs1 & -> & Hs1 & H1); [done | done | | |].
  { rewrite norm_index_neg by lia. f_equal. lia. }
  { rewrite norm_index_neg by lia. f_equal. lia. }
  destruct (row_update_spec (west_active rs st) rhs1 n m 1 2 1 2 (west bf))
    as (rhs2 & Hr2 & Hs2 & H2); [done | done | | |].
  { by rewrite norm_index_nonneg by lia. }
  { by rewrite norm_index_nonneg by lia. }
  destruct (col_update_spec (north_active rs) rhs2 n m (-2) (-3) (m + 2) (m + 1) (north bf))
    as (rhs3 & Hr3 & Hs3 & H3); [done | done | | |].
  { rewrite norm_index_neg by lia. f_equal. lia. }
  { rewrite norm_index_neg by lia. f_equal. lia. }
  destruct (col_update_spec (south_active rs) rhs3 n m 1 2 1 2 (south bf))
    as (rhs4 & Hr4 & Hs4 & H4); [done | done | | |].
  { by rewrite norm_index_nonneg by lia. }
  { by rewrite norm_index_nonneg by lia. }
  simpl. rewrite Hr2. simpl. rewrite Hr3. simpl. rewrite Hr4.
  exists rhs4. split; [done |]. split; [done |].
  intros i j Hi Hj. unfold injected.
  rewrite H4, H3, H2, H1 by lia.
  assert (cell rhs1 1 j = cell rhs 1 j) as ->.
  { rewrite H1 by lia. rewrite decide_False by lia. ring. }
  assert (cell rhs2 i (m + 2) = cell rhs i (m + 2)) as ->.
  { rewrite H2, H1 by lia. rewrite !decide_False by lia. ring. }
  assert (cell rhs3 i 1 = cell rhs i 1) as ->.
  { rewrite H3, H2, H1 by lia. rewrite !decide_False by lia. ring. }
  ring.
Qed.


(** ** Shapes of the assembled arrays *)

Lemma shape_zip_with {A B C} (f : A → B → C) (a : list (list A)) (b : list (list B)) n m :
  shape a n m → shape b n m → shape (zip_with (zip_with f) a b) n m.
Proof.
  intros [Hla Hfa] [Hlb Hfb]. split.
  - rewrite length_zip_with. lia.
  - apply Forall_lookup_2. intros i r. rewrite lookup_zip_with.
    destruct (a !! i) as [ra |] eqn:Hra; [| done].
    destruct (b !! i) as [rb |] eqn:Hrb; [| done]. simpl. intros ?; simplify_eq.
    rewrite length_zip_with.
    pose proof (Forall_lookup_1 _ _ _ _ Hfa Hra). pose proof (Forall_lookup_1 _ _ _ _ Hfb Hrb).
    simpl in *. lia.
Qed.

Lemma shape_ew_col f (a : array2) (v : array1) n m :
  shape a n m → length v = n → shape (ew_col f a v) n m.
Proof.
  intros [Hla Hfa] Hv. unfold ew_col. split.
  - rewrite length_zip_with. lia.
  - apply Forall_lookup_2. intros i r. rewrite lookup_zip_with.
    destruct (a !! i) as [ra |] eqn:Hra; [| done].
    destruct (v !! i); [| done]. simpl. intros ?; simplify_eq.
    rewrite length_fmap. apply (Forall_lookup_1 _ _ _ _ Hfa Hra).
Qed.

Lemma shape_ew_row f (a : array2) (v : array1) n m :
  shape a n m → length v = m → shape (ew_row f a v) n m.
Proof.
  intros [Hla Hfa] Hv. unfold ew_row. split.
  - by rewrite length_fmap.
  - apply Forall_fmap. eapply List.Forall_impl; [| exact Hfa]. simpl. intros r Hr.
    rewrite length_zip_with. lia.
Qed.

Lemma shape_fmap {A B} (g : A → B) (a : list (list A)) n m :
  shape a n m → shape (fmap (M := list) g <$> a) n m.
Proof.
  intros [Hla Hfa]. split.
  - by rewrite length_fmap.
  - apply Forall_fmap. eapply List.Forall_impl; [| exact Hfa]. simpl. intros r Hr.
    by rewrite length_fmap.
Qed.

Lemma shape_slice2 {A} (sx sy : Z) (a : list (list A)) n m n' m' :
  (∀ B (l : list B), length l = n → length (slice sx (sx - 4) l) = n') →
  (∀ B (l : list B), length l = m → length (slice sy (sy - 4) l) = m') →
  shape a n m → shape (slice2 sx (sx - 4) sy (sy - 4) a) n' m'.
Proof.
  intros Hx Hy [Hl Hf]. unfold slice2. split.
  - rewrite length_fmap. by apply Hx.
  - apply Forall_fmap, Forall_lookup_2. intros i r Hr. simpl. apply Hy.
    rewrite lookup_slice in Hr. case_decide; [| done].
    apply (Forall_lookup_1 _ _ _ _ Hf Hr).
Qed.

Lemma shape_slice2_32 {A} (a : list (list A)) n m :
  shape a (n + 4) (m + 4) → shape (slice2 3 (-1) 2 (-2) a) n m.
Proof.
  apply (shape_slice2 3 2); intros; by (apply length_slice_2 || apply length_slice_3).
Qed.

Lemma shape_slice2_23 {A} (a : list (list A)) n m :
  shape a (n + 4) (m + 4) → shape (slice2 2 (-2) 3 (-1) a) n m.
Proof.
  apply (shape_slice2 2 3); intros; by (apply length_slice_2 || apply length_slice_3).
Qed.

Lemma length_sq v : length (sq v) = length v.
Proof. apply length_fmap. Qed.

Ltac shape_step :=
  first
    [ apply shape_zip_with | apply shape_ew_col | apply shape_ew_row | apply shape_fmap
    | apply shape_slice2_22 | apply shape_slice2_32 | apply shape_slice2_23
    | rewrite length_sq | apply length_slice_2 | apply length_slice_3
    | eassumption ].

Lemma shape_interior_mask vs n m : padded vs n m → shape (interior_mask vs) n m.
Proof. intros []. unfold interior_mask, all_not_axis2. repeat shape_step. Qed.

Lemma shape_east_diag vs n m : padded vs n m → shape (east_diag vs) n m.
Proof. intros []. unfold east_diag. repeat shape_step. Qed.
Lemma shape_west_diag vs n m : padded vs n m → shape (west_diag vs) n m.
Proof. intros []. unfold west_diag. repeat shape_step. Qed.
Lemma shape_north_diag vs n m : padded vs n m → shape (north_diag vs) n m.
Proof. intros []. unfold north_diag. repeat shape_step. Qed.
Lemma shape_south_diag vs n m : padded vs n m → shape (south_diag vs) n m.
Proof. intros []. unfold south_diag. repeat shape_step. Qed.
Lemma shape_main_diag vs n m : padded vs n m → shape (main_diag vs) n m.
Proof. intros []. unfold main_diag, ew, neg. repeat shape_step. Qed.

Lemma shape_cf_main vs n m : padded vs n m → shape (cf_main vs) n m.
Proof.
  intros H. unfold cf_main, zero_to_one, mul_mask.
  apply shape_fmap, shape_zip_with; [by apply shape_main_diag | by apply shape_interior_mask].
Qed.
Lemma shape_cf_east vs n m : padded vs n m → shape (cf_east vs) n m.
Proof.
  intros H. apply shape_zip_with; [by apply shape_interior_mask | by apply shape_east_diag].
Qed.
Lemma shape_cf_west vs n m : padded vs n m → shape (cf_west vs) n m.
Proof.
  intros H. apply shape_zip_with; [by apply shape_interior_mask | by apply shape_west_diag].
Qed.
Lemma shape_cf_north vs n m : padded vs n m → shape (cf_north vs) n m.
Proof.
  intros H. apply shape_zip_with; [by apply shape_interior_mask | by apply shape_north_diag].
Qed.
Lemma shape_cf_south vs n m : padded vs n m → shape (cf_south vs) n m.
Proof.
  intros H. apply shape_zip_with; [by apply shape_interior_mask | by apply shape_south_diag].
Qed.

(** ** The boundary coefficient vectors *)

Lemma getitem_last {A} (a : list A) n r :
  length a = n → 0 < n → getitem a (-1) = Ok r → a !! (n - 1) = Some r.
Proof.
  intros Hl Hn. unfold getitem. rewrite Hl, norm_index_neg by lia.
  change (Z.to_nat (- -1)) with 1. simpl.
  destruct (a !! (n - 1)); simpl; intros ?; by simplify_eq.
Qed.

Lemma getitem_first {A} (a : list A) n r :
  length a = n → 0 < n → getitem a 0 = Ok r → a !! 0 = Some r.
Proof.
  intros Hl Hn. destruct a as [| x a]; [simpl in Hl; lia |].
  unfold getitem. rewrite Hl, norm_index_nonneg by lia. simpl.
  intros ?; by simplify_eq.
Qed.

Lemma getitem_col_all_spec (a : array2) n m (k : Z) c v :
  shape a n m → 0 < n → norm_index m k = Ok c → getitem_col_all a k = Ok v →
  length v = n ∧ ∀ i, i < n → at1 v i = cell a i c.
Proof.
  intros Hs Hn Hk. unfold getitem_col_all.
  rewrite (shape_ncols a n m), Hk by done. simpl. intros ?; simplify_eq. split.
  - rewrite length_fmap. apply Hs.
  - intros i Hi. destruct (shape_lookup a n m i Hs Hi) as (r & Hr & _).
    unfold at1. rewrite list_lookup_fmap, Hr. simpl.
    by rewrite (cell_lookup a i c r Hr).
Qed.

Lemma boundary_fac_spec da rs state mat bf n m :
  _assemble_poisson_matrix da rs state = Ok (mat, bf) →
  padded (variables state) n m → 0 < n → 0 < m →
  let vs := variables state in
  length (east bf) = m ∧ length (west bf) = m ∧
  length (north bf) = n ∧ length (south bf) = n ∧
  (∀ j, j < m → at1 (east bf) j = cell (cf_east vs) (n - 1) j) ∧
  (∀ j, j < m → at1 (west bf) j = cell (cf_west vs) 0 j) ∧
  (∀ i, i < n → at1 (north bf) i = cell (cf_north vs) i (m - 1)) ∧
  (∀ i, i < n → at1 (south bf) i = cell (cf_south vs) i 0).
Proof.
  intros Ha H Hn Hm vs. unfold _assemble_poisson_matrix in Ha. fold vs in Ha.
  destruct (getRanges da rs) as [[i0 i1] [j0 j1]].
  destruct (traverse _ (range j0 j1)) as [rows |]; [| done]. simpl in Ha.
  destruct (getitem (cf_east vs) (-1)) as [e |] eqn:He; [| done]. simpl in Ha.
  destruct (getitem (cf_west vs) 0) as [w |] eqn:Hw; [| done]. simpl in Ha.
  destruct (getitem_col_all (cf_north vs) (-1)) as [no |] eqn:Hno; [| done]. simpl in Ha.
  destruct (getitem_col_all (cf_south vs) 0) as [so |] eqn:Hso; [| done]. simpl in Ha.
  simplify_eq. simpl.
  pose proof (shape_cf_east vs n m H) as Hse. pose proof (shape_cf_west vs n m H) as Hsw.
  apply (getitem_last _ n) in He; [| apply Hse | done].
  apply (getitem_first _ n) in Hw; [| apply Hsw | done].
  destruct (getitem_col_all_spec _ n m (-1) (m - 1) no (shape_cf_north vs n m H) Hn)
    as [Hlno Hcno]; [rewrite norm_index_neg by lia; f_equal; lia | done |].
  destruct (getitem_col_all_spec _ n m 0 0 so (shape_cf_south vs n m H) Hn)
    as [Hlso Hcso]; [by rewrite norm_index_nonneg by lia | done |].
  repeat split; try done.
  - apply (Forall_lookup_1 _ _ _ _ (proj2 Hse) He).
  - apply (Forall_lookup_1 _ _ _ _ (proj2 Hsw) Hw).
  - intros j Hj. by rewrite (cell_lookup _ _ _ _ He).
  - intros j Hj. by rewrite (cell_lookup _ _ _ _ Hw).
Qed.

Lemma init_assemble rs state self :
  __init__ rs state = Ok self →
  ∃ da mat, create_da (settings state) rs = Ok da ∧
    _assemble_poisson_matrix da rs state = Ok (mat, _boundary_fac self) ∧
    _da self = da ∧ _matrix self = mat ∧ ksp_operators (_ksp self) = mat ∧
    ksp_rtol (_ksp self) = congr_epsilon (settings state) ∧
    ksp_max_it (_ksp self) = congr_max_iterations (settings state).
Proof.
  unfold __init__. intros H.
  destruct (create_da _ _) as [da |]; [| done]. simpl in H.
  destruct (_assemble_poisson_matrix da rs state) as [[mat bf] |] eqn:Ha; [| done].
  simpl in H. simplify_eq. simpl. by exists da, mat.
Qed.

Lemma cell_set_rhs_on_boundaries vs (rhs bv : array2) n m i j :
  shape (boundary_mask vs) n m → shape rhs n m → shape bv n m → i < n → j < m →
  get2 (set_rhs_on_boundaries vs rhs bv) i j =
  Some (if land_at vs i j then cell bv i j else cell rhs i j).
Proof.
  intros Hm Hr Hb Hi Hj. unfold set_rhs_on_boundaries, land_at.
  rewrite get2_where2, get2_all_not_axis2.
  rewrite (get2_cell rhs n m), (get2_cell bv n m) by done.
  destruct (shape_get2 (boundary_mask vs) n m i j Hm Hi Hj) as [l ->]. simpl.
  rewrite forallb_negb_existsb. by destruct (existsb id l).
Qed.

Lemma shape_set_rhs_on_boundaries vs (rhs bv : array2) n m :
  shape (boundary_mask vs) n m → shape rhs n m → shape bv n m →
  shape (set_rhs_on_boundaries vs rhs bv) n m.
Proof.
  intros Hm Hr Hb. unfold set_rhs_on_boundaries, where2, all_not_axis2.
  apply shape_zip_with; [by apply shape_fmap |].
  destruct Hr as [Hlr Hfr], Hb as [Hlb Hfb]. split.
  - rewrite length_zip_with. lia.
  - apply Forall_lookup_2. intros i r. rewrite lookup_zip_with.
    destruct (rhs !! i) as [ra |] eqn:Hra; [| done].
    destruct (bv !! i) as [rb |] eqn:Hrb; [| done]. simpl. intros ?; simplify_eq.
    rewrite length_zip.
    pose proof (Forall_lookup_1 _ _ _ _ Hfr Hra). pose proof (Forall_lookup_1 _ _ _ _ Hfb Hrb).
    simpl in *. lia.
Qed.

(** ** Land cells *)

Lemma cf_land vs n m i j :
  padded vs n m → i < n → j < m → is_land vs i j = true →
  cell (cf_main vs) i j = 1%Qc ∧ cell (cf_east vs) i j = 0%Qc ∧
  cell (cf_west vs) i j = 0%Qc ∧ cell (cf_north vs) i j = 0%Qc ∧
  cell (cf_south vs) i j = 0%Qc.
Proof.
  intros H Hi Hj Hland. unfold cell.
  destruct (get2_cf_main vs n m i j H Hi Hj) as (c & _ & ->).
  rewrite (get2_cf_east vs n m), (get2_cf_west vs n m), (get2_cf_north vs n m),
    (get2_cf_south vs n m) by done.
  rewrite Hland. simpl. rewrite !Qcmult_0_l, Qcmult_0_r.
  rewrite decide_True by done. done.
Qed.

Lemma getitem2_cell (a : array2) n m (zi zj : Z) :
  shape a n m → (0 ≤ zi < Z.of_nat n)%Z → (0 ≤ zj < Z.of_nat m)%Z →
  getitem2 a zi zj = Ok (cell a (Z.to_nat zi) (Z.to_nat zj)).
Proof.
  intros Hs Hi Hj. unfold getitem2, getitem.
  rewrite (proj1 Hs), norm_index_nonneg by lia. simpl.
  destruct (cell_in_shape a n m (Z.to_nat zi) (Z.to_nat zj) Hs) as (r & Hr & Hlr & Hc);
    [lia | lia |].
  rewrite Hr. simpl. rewrite Hlr, norm_index_nonneg by lia. simpl. by rewrite Hc.
Qed.

(** The five calls of [setValueStencil] on row [(gi, gj)], spelled out. *)
Lemma stencil_row_cells st rs vs n m (gi gj : Z) :
  padded vs n m → 0 < n → 0 < m →
  (num_proc rs).1 ≠ 0%Z → (num_proc rs).2 ≠ 0%Z →
  (nx st / (num_proc rs).1)%Z = Z.of_nat n → (ny st / (num_proc rs).2)%Z = Z.of_nat m →
  let i := Z.to_nat (gi `mod` Z.of_nat n) in
  let j := Z.to_nat (gj `mod` Z.of_nat m) in
  stencil_row st rs (cf vs) gi gj =
  Ok [((gi, gj), ((gi + 0)%Z, (gj + 0)%Z), cell (cf_main vs) i j);
      ((gi, gj), ((gi + 1)%Z, (gj + 0)%Z), cell (cf_east vs) i j);
      ((gi, gj), ((gi + -1)%Z, (gj + 0)%Z), cell (cf_west vs) i j);
      ((gi, gj), ((gi + 0)%Z, (gj + 1)%Z), cell (cf_north vs) i j);
      ((gi, gj), ((gi + 0)%Z, (gj + -1)%Z), cell (cf_south vs) i j)].
Proof.
  intros H Hn Hm Hpx Hpy Hnx Hny i j. unfold stencil_row, floordiv, pymod.
  rewrite !decide_False by done. simpl. rewrite Hnx, Hny.
  rewrite !decide_False by lia. simpl.
  assert (0 ≤ gi `mod` Z.of_nat n < Z.of_nat n)%Z by (apply Z.mod_pos_bound; lia).
  assert (0 ≤ gj `mod` Z.of_nat m < Z.of_nat m)%Z by (apply Z.mod_pos_bound; lia).
  repeat (rewrite (getitem2_cell _ n m)
            by first [ done | by apply shape_cf_main | by apply shape_cf_east
                     | by apply shape_cf_west | by apply shape_cf_north
                     | by apply shape_cf_south ]; simpl).
  done.
Qed.

(** ** The solver *)

Lemma string_app_assoc (a b c : string) : ((a ++ b) ++ c = a ++ (b ++ c))%string.
Proof. induction a as [| x a IH]; simpl; [done | by rewrite IH]. Qed.


Lemma create_da_ok st rs da :
  create_da st rs = Ok da →
  (num_proc rs).1 ≠ 0%Z ∧ (num_proc rs).2 ≠ 0%Z ∧
  da_ownership_ranges da =
    (tuple_repeat (nx st / (num_proc rs).1)%Z (num_proc rs).1,
     tuple_repeat (ny st / (num_proc rs).2)%Z (num_proc rs).2).
Proof.
  unfold create_da, floordiv. intros H.
  destruct (decide ((num_proc rs).1 = 0%Z)); [done |].
  destruct (decide ((num_proc rs).2 = 0%Z)); [done |].
  simpl in H. by simplify_eq.
Qed.

Lemma init_solver_shapes rs state self rhs n m :
  __init__ rs state = Ok self → padded (variables state) n m → 0 < n → 0 < m →
  shape rhs (n + 4) (m + 4) →
  solver_shapes self rhs n m.
Proof.
  intros Hinit H Hn Hm Hrhs.
  destruct (init_assemble rs state self Hinit) as (da & mat & _ & Ha & _).
  destruct (boundary_fac_spec da rs state mat _ n m Ha H Hn Hm) as (? & ? & ? & ? & _).
  split; done.
Qed.

Section SolverProperties.

Variable ksp_solve : KSP → array2 → array2 → KSPOutcome.
Variable enforce_boundaries : array2 → bool → array2.

(** [_petsc_solver] on a state: the injection succeeds on a padded
    right-hand side, and the engine is called once, on the interiors. *)
Lemma petsc_solver_spec self rs state rhs x0 n m :
  solver_shapes self rhs n m →
  ∃ inj, add_dirichlet_bc (_boundary_fac self) rs (settings state) rhs = Ok inj ∧
    shape inj (n + 4) (m + 4) ∧
    (∀ i j, i < n + 4 → j < m + 4 →
       cell inj i j
       = (cell rhs i j - injected (_boundary_fac self) rs (settings state) rhs n m i j)%Qc) ∧
    let b := slice2 2 (-2) 2 (-2) inj in
    let o := ksp_solve (_ksp self) b (slice2 2 (-2) 2 (-2) x0) in
    shape b n m ∧
    _petsc_solver ksp_solve self rs (a_state state) rhs x0 = Ok (ksp_solution o, solve_log o).
Proof.
  intros [].
  destruct (add_dirichlet_bc_spec (_boundary_fac self) rs (settings state) rhs n m)
    as (inj & Hinj & Hsinj & Hcells); try done.
  exists inj. do 3 (split; [done |]). intros b o.
  split; [by apply shape_slice2_22 |].
  unfold _petsc_solver. simpl. rewrite Hinj. reflexivity.
Qed.

(** [solve] hands the variables of the state to [_petsc_solver], and reading
    [settings] from them raises. *)
Lemma solve_raises self rs state rhs x0 boundary_val :
  solve ksp_solve enforce_boundaries self rs state rhs x0 boundary_val
  = Raise AttributeError.
Proof. reflexivity. Qed.

End SolverProperties.

(** ** Land rows *)

(** The row of a land cell, as [__init__] writes it. *)
Lemma land_row (rs : Runtime) (state : State) (n m : nat) (gi gj : Z) :
  padded (variables state) n m → 0 < n → 0 < m →
  (num_proc rs).1 ≠ 0%Z → (num_proc rs).2 ≠ 0%Z →
  (nx (settings state) / (num_proc rs).1)%Z = Z.of_nat n →
  (ny (settings state) / (num_proc rs).2)%Z = Z.of_nat m →
  is_land (variables state) (Z.to_nat (gi `mod` Z.of_nat n))
    (Z.to_nat (gj `mod` Z.of_nat m)) = true →
  stencil_row (settings state) rs (cf (variables state)) gi gj =
    Ok [((gi, gj), ((gi + 0)%Z, (gj + 0)%Z), 1%Qc);
        ((gi, gj), ((gi + 1)%Z, (gj + 0)%Z), 0%Qc);
        ((gi, gj), ((gi + -1)%Z, (gj + 0)%Z), 0%Qc);
        ((gi, gj), ((gi + 0)%Z, (gj + 1)%Z), 0%Qc);
        ((gi, gj), ((gi + 0)%Z, (gj + -1)%Z), 0%Qc)].
Proof.
  intros H Hn Hm Hpx Hpy Hnx Hny Hland.
  set (i := Z.to_nat (gi `mod` Z.of_nat n)) in *.
  set (j := Z.to_nat (gj `mod` Z.of_nat m)) in *.
  assert (i < n) as Hi by (pose proof (Z.mod_pos_bound gi (Z.of_nat n)); lia).
  assert (j < m) as Hj by (pose proof (Z.mod_pos_bound gj (Z.of_nat m)); lia).
  destruct (cf_land (variables state) n m i j H Hi Hj Hland) as (Cm & Ce & Cw & Cn & Cs).
  rewrite (stencil_row_cells _ rs (variables state) n m gi gj) by done.
  fold i j. by rewrite Cm, Ce, Cw, Cn, Cs.
Qed.

Section SolveProperties.

Variable ksp_solve : KSP → array2 → array2 → KSPOutcome.
Variable enforce_boundaries : array2 → bool → array2.

(** ** C10: the default boundary value *)


End SolveProperties.

(** ** C4: which cells of the right-hand side are replaced *)

(** C4 (as the code has it). The mask that selects the right-hand side is
    true where no level of [vs.boundary_mask] is set at the column: those
    cells keep the caller's [rhs]; every other cell, where at least one
    level is set, receives [boundary_val]. *)
Theorem rhs_kept_where_no_level_is_set (vs : Variables) (rhs bv : array2)
    (n m i j : nat) :
  shape (boundary_mask vs) n m → shape rhs n m → shape bv n m → i < n → j < m →
  ∃ lv, get2 (boundary_mask vs) i j = Some lv ∧
    get2 (all_not_axis2 (boundary_mask vs)) i j = Some (forallb negb lv) ∧
    get2 (set_rhs_on_boundaries vs rhs bv) i j =
      Some (if forallb negb lv then cell rhs i j else cell bv i j) ∧
    (forallb negb lv = false ↔ existsb id lv = true).
Proof.
  intros Hm Hr Hb Hi Hj.
  destruct (shape_get2 (boundary_mask vs) n m i j Hm Hi Hj) as [lv Hlv].
  exists lv. split; [done |]. split; [by rewrite get2_all_not_axis2, Hlv |]. split.
  - rewrite (cell_set_rhs_on_boundaries vs rhs bv n m) by done.
    unfold land_at. rewrite Hlv. simpl. rewrite forallb_negb_existsb.
    by destruct (existsb id lv).
  - rewrite forallb_negb_existsb. by destruct (existsb id lv).
Qed.

(** ** C3 and C7: the ownership ranges *)

Lemma covered_replicate (k : nat) (b : Z) : covered (replicate k b) = (Z.of_nat k * b)%Z.
Proof. unfold covered. induction k as [| k IH]; simpl; [done | rewrite IH; lia]. Qed.

Lemma block_range_replicate (k p : nat) (b : Z) :
  p < k →
  block_range (replicate k b) p = ((Z.of_nat p * b)%Z, ((Z.of_nat p + 1) * b)%Z).
Proof.
  intros Hp. unfold block_range.
  rewrite take_replicate, lookup_replicate_2 by done.
  fold (covered (replicate (p `min` k) b)). rewrite covered_replicate. simpl.
  replace (p `min` k) with p by lia. f_equal. lia.
Qed.

Lemma in_block_replicate (k p : nat) (b i : Z) :
  p < k → in_block (replicate k b) p i ↔ (Z.of_nat p * b ≤ i < (Z.of_nat p + 1) * b)%Z.
Proof. intros Hp. unfold in_block. by rewrite block_range_replicate. Qed.

Lemma blocks_cover (k : nat) (b i : Z) :
  (0 ≤ b)%Z →
  (0 ≤ i < Z.of_nat k * b)%Z ↔ ∃ p, p < k ∧ in_block (replicate k b) p i.
Proof.
  intros Hb. split.
  - intros Hi. assert (0 < b)%Z as Hb' by nia.
    exists (Z.to_nat (i / b)).
    assert (0 ≤ i / b)%Z by (apply Z.div_pos; lia).
    assert (i / b < Z.of_nat k)%Z by (apply Z.div_lt_upper_bound; lia).
    split; [lia |]. rewrite in_block_replicate by lia.
    rewrite Z2Nat.id by done.
    pose proof (Z.mul_div_le i b Hb'). pose proof (Z.mul_succ_div_gt i b Hb'). lia.
  - intros (p & Hp & Hin). rewrite in_block_replicate in Hin by done. nia.
Qed.

Lemma blocks_disjoint (k p q : nat) (b i : Z) :
  p < k → q < k → in_block (replicate k b) p i → in_block (replicate k b) q i → p = q.
Proof.
  intros Hp Hq. rewrite !in_block_replicate by done. intros H1 H2.
  destruct (decide (p = q)) as [| Hne]; [done |]. exfalso.
  assert (p < q ∨ q < p) as [Hlt | Hlt] by lia; nia.
Qed.

Lemma exact_cover_iff_divisible (a b : Z) :
  (0 < b)%Z → (b * (a / b) = a)%Z ↔ (a `mod` b = 0)%Z.
Proof. intros Hb. pose proof (Z.div_mod a b). lia. Qed.

(** C3 (as the code has it). The constructor checks no divisibility and has
    no configuration error: for a process grid without a zero entry it
    passes [px] blocks of size [nx // px] and [py] blocks of size [ny // py]
    to the DMDA constructor, whether or not the divisions are exact. The
    blocks of an axis cover [px * (nx // px)] indices, which is all [nx] of
    them exactly when [px] divides [nx]. The only error the constructor's
    own code raises here is [ZeroDivisionError], for a process grid with a
    zero entry. *)
Theorem constructor_checks_no_divisibility (st : Settings) (rs : Runtime) :
  let px := (num_proc rs).1 in
  let py := (num_proc rs).2 in
  (px ≠ 0%Z → py ≠ 0%Z →
   ∃ da, create_da st rs = Ok da ∧
     da_ownership_ranges da
       = (tuple_repeat (nx st / px)%Z px, tuple_repeat (ny st / py)%Z py) ∧
     ((0 < px)%Z → covered (da_ownership_ranges da).1 = (px * (nx st / px))%Z ∧
                   (covered (da_ownership_ranges da).1 = nx st ↔ (nx st `mod` px = 0)%Z)) ∧
     ((0 < py)%Z → covered (da_ownership_ranges da).2 = (py * (ny st / py))%Z ∧
                   (covered (da_ownership_ranges da).2 = ny st ↔ (ny st `mod` py = 0)%Z))) ∧
  (px = 0%Z ∨ py = 0%Z → create_da st rs = Raise ZeroDivisionError).
Proof.
  intros px py. split.
  - intros Hpx Hpy. unfold create_da, floordiv. fold px py.
    rewrite !decide_False by done. simpl. eexists. split; [reflexivity |]. simpl.
    split; [done |]. unfold tuple_repeat. rewrite !covered_replicate.
    split; intros Hpos; rewrite Z2Nat.id by lia;
      (split; [done | by apply exact_cover_iff_divisible]).
  - unfold px, py. intros [H0 | H0]; unfold create_da, floordiv.
    + by rewrite (decide_True _ _ H0).
    + destruct (decide ((num_proc rs).1 = 0%Z)); [done |]. simpl.
      by rewrite (decide_True _ _ H0).
Qed.

(** C7 (as the code has it). With a positive process grid the ownership
    ranges given to the DMDA are, along each axis, blocks of equal size laid
    end to end from index 0: block [p] is [[p*b, (p+1)*b)] with
    [b = nx // px], so consecutive blocks touch and distinct blocks share no
    index. The blocks of the two axes cover exactly
    [[0, px*(nx//px)) x [0, py*(ny//py))]; that is the whole grid
    [[0, nx) x [0, ny)] exactly when [px] divides [nx] and [py] divides [ny],
    and otherwise the last [nx mod px] columns or [ny mod py] rows belong to
    no process. *)
Theorem ownership_ranges_tile_the_covered_part (st : Settings) (rs : Runtime) (da : DMDA) :
  create_da st rs = Ok da →
  let px := (num_proc rs).1 in
  let py := (num_proc rs).2 in
  let bx := (nx st / px)%Z in
  let by_ := (ny st / py)%Z in
  let lx := (da_ownership_ranges da).1 in
  let ly := (da_ownership_ranges da).2 in
  (0 < px)%Z → (0 < py)%Z → (0 ≤ nx st)%Z → (0 ≤ ny st)%Z →
  (∀ p, (Z.of_nat p < px)%Z →
     block_range lx p = ((Z.of_nat p * bx)%Z, ((Z.of_nat p + 1) * bx)%Z)) ∧
  (∀ q, (Z.of_nat q < py)%Z →
     block_range ly q = ((Z.of_nat q * by_)%Z, ((Z.of_nat q + 1) * by_)%Z)) ∧
  (∀ i j, (0 ≤ i < px * bx)%Z ∧ (0 ≤ j < py * by_)%Z ↔
     ∃ p q, (Z.of_nat p < px)%Z ∧ (Z.of_nat q < py)%Z ∧ in_block lx p i ∧ in_block ly q j) ∧
  (∀ p p' q q' i j,
     (Z.of_nat p < px)%Z → (Z.of_nat p' < px)%Z → (Z.of_nat q < py)%Z → (Z.of_nat q' < py)%Z →
     in_block lx p i → in_block lx p' i → in_block ly q j → in_block ly q' j →
     p = p' ∧ q = q') ∧
  ((px * bx = nx st)%Z ↔ (nx st `mod` px = 0)%Z) ∧
  ((py * by_ = ny st)%Z ↔ (ny st `mod` py = 0)%Z).
Proof.
  intros Hda px py bx by_ lx ly Hpx Hpy Hnx Hny.
  destruct (create_da_ok st rs da Hda) as (_ & _ & Hr).
  assert (lx = replicate (Z.to_nat px) bx) as Hlx by (unfold lx; by rewrite Hr).
  assert (ly = replicate (Z.to_nat py) by_) as Hly by (unfold ly; by rewrite Hr).
  assert (0 ≤ bx)%Z as Hbx by (apply Z.div_pos; lia).
  assert (0 ≤ by_)%Z as Hby by (apply Z.div_pos; lia).
  rewrite Hlx, Hly.
  split; [intros p Hp; apply block_range_replicate; lia |].
  split; [intros q Hq; apply block_range_replicate; lia |].
  split.
  { intros i j. split.
    - intros [Hi Hj].
      destruct (proj1 (blocks_cover (Z.to_nat px) bx i Hbx)) as (p & Hp & Hin); [lia |].
      destruct (proj1 (blocks_cover (Z.to_nat py) by_ j Hby)) as (q & Hq & Hjn); [lia |].
      exists p, q. split; [lia |]. split; [lia |]. by split.
    - intros (p & q & Hp & Hq & Hin & Hjn).
      pose proof (proj2 (blocks_cover (Z.to_nat px) bx i Hbx)) as Hcx.
      pose proof (proj2 (blocks_cover (Z.to_nat py) by_ j Hby)) as Hcy.
      split.
      + rewrite <- (Z2Nat.id px) by lia. apply Hcx. exists p. split; [lia | done].
      + rewrite <- (Z2Nat.id py) by lia. apply Hcy. exists q. split; [lia | done]. }
  split.
  { intros p p' q q' i j Hp Hp' Hq Hq' H1 H2 H3 H4. split.
    - apply (blocks_disjoint (Z.to_nat px) p p' bx i); (lia || done).
    - apply (blocks_disjoint (Z.to_nat py) q q' by_ j); (lia || done). }
  split; by apply exact_cover_iff_divisible.
Qed.

(** * The claims on concrete inputs *)

Ltac by_compute := apply (bool_decide_unpack _); vm_compute; exact I.
Ltac concrete_shape := split; [reflexivity | repeat constructor].

Lemma padded_unit_vs : padded unit_vs 2 2.
Proof. split; try reflexivity; concrete_shape. Defined.

Lemma padded_island_vs : padded island_vs 2 2.
Proof. split; try reflexivity; concrete_shape. Defined.




(** Witness of C6 on the unit grid: the centre coefficient is -4. *)
Lemma main_diag_is_minus_sum_of_terms_witness :
  get2 (east_diag unit_vs) 0 0 = Some 1%Qc ∧
  get2 (main_diag unit_vs) 0 0 = Some (Qc_of_Z (-4)).
Proof.
  destruct (main_diag_is_minus_sum_of_terms unit_vs 2 2 0 0 padded_unit_vs)
    as (He & _ & _ & _ & Hc); [lia | lia |].
  split.
  - rewrite He. f_equal; try by_compute.
  - rewrite Hc. f_equal; try by_compute.
Defined.

Lemma init_unit_state : ∃ self, __init__ rs11 unit_state = Ok self.
Proof. vm_compute. eexists. reflexivity. Defined.

Lemma init_island_state : ∃ self, __init__ rs11 island_state = Ok self.
Proof. vm_compute. eexists. reflexivity. Defined.

(** Witness of C9 on the unit grid, at a wrap-around pair. *)
Lemma uniform_operator_symmetric_witness :
  ∃ e, get2 (cf_east unit_vs) 1 0 = Some e ∧ get2 (cf_west unit_vs) 0 0 = Some e.
Proof.
  apply (uniform_operator_symmetric unit_vs 2 2 1 0 1%Qc 1%Qc 1%Qc 1%Qc 1%Qc 1%Qc 1%Qc 1%Qc);
    first [ exact padded_unit_vs | lia
          | unfold uniform2, uniform1, unmasked; simpl; repeat constructor ].
Defined.

(** ** C2, C5 and C8: what [solve] returns *)

(** C2 (where the code departs from it). On the island grid the cell at
    [(2, 2)] of the padded arrays is fully masked. The row [__init__]
    writes for it is the identity row, as the claim has it: 1 on the
    diagonal and 0 for the four neighbours. But [solve], called with the
    boundary value 5, returns no value at that cell: whatever the engine
    and the halo fill are, it raises [AttributeError], since line 100 hands
    [vs] to [_petsc_solver], whose first statement reads [settings] from
    it. *)
Theorem land_row_is_identity_but_solve_raises
    (ksp_solve : KSP → array2 → array2 → KSPOutcome)
    (enforce_boundaries : array2 → bool → array2) :
  ∃ self, __init__ rs11 island_state = Ok self ∧
    fully_masked island_vs 2 2 = true ∧
    stencil_row st22 rs11 (cf island_vs) 0 0 =
      Ok [((0, 0), ((0 + 0)%Z, (0 + 0)%Z), 1%Qc);
          ((0, 0), ((0 + 1)%Z, (0 + 0)%Z), 0%Qc);
          ((0, 0), ((0 + -1)%Z, (0 + 0)%Z), 0%Qc);
          ((0, 0), ((0 + 0)%Z, (0 + 1)%Z), 0%Qc);
          ((0, 0), ((0 + 0)%Z, (0 + -1)%Z), 0%Qc)]%Z ∧
    solve ksp_solve enforce_boundaries self rs11 island_state
      (const2 6 6 1%Qc) (const2 6 6 0%Qc) (Some (const2 6 6 (Qc_of_Z 5)))
    = Raise AttributeError.
Proof.
  destruct init_island_state as [self Hself]. exists self. split; [exact Hself |].
  split; [reflexivity |]. split; [| apply solve_raises].
  apply (land_row rs11 island_state 2 2 0 0 padded_island_vs);
    [lia | lia | discriminate | discriminate | reflexivity | reflexivity | reflexivity].
Qed.

(** C5 (where the code departs from it). On the unit grid [solve] raises
    [AttributeError] whatever the engine is, an engine that reports a
    negative reason included: line 100 hands [vs] to [_petsc_solver], whose
    first statement reads [settings] from it, so the engine is not called,
    nothing is logged and no array is returned. Called with the state
    itself, and with the engine that stops before its first iteration,
    [_petsc_solver] does what the claim says of [solve]: it returns the
    engine's iterate and logs one warning with the iteration count 0 and
    the reason -3. *)
Theorem solve_raises_whatever_the_engine_reports
    (ksp_solve : KSP → array2 → array2 → KSPOutcome)
    (enforce_boundaries : array2 → bool → array2) :
  ∃ self, __init__ rs11 unit_state = Ok self ∧
    solve ksp_solve enforce_boundaries self rs11 unit_state
      (const2 6 6 1%Qc) (const2 6 6 0%Qc) None
    = Raise AttributeError ∧
    _petsc_solver ksp_no_progress self rs11 (a_state unit_state)
      (const2 6 6 1%Qc) (const2 6 6 0%Qc)
    = Ok (const2 2 2 0%Qc,
          [Warning "Streamfunction solver did not converge after 0 iterations (error code: -3)"]).
Proof.
  destruct init_unit_state as [self Hself]. exists self. split; [exact Hself |].
  split; [apply solve_raises |].
  destruct (petsc_solver_spec ksp_no_progress self rs11 unit_state
              (const2 6 6 1%Qc) (const2 6 6 0%Qc) 2 2) as (inj & _ & _ & _ & _ & Hp).
  { apply (init_solver_shapes rs11 unit_state self _ 2 2 Hself padded_unit_vs);
      [lia | lia | concrete_shape]. }
  rewrite Hp. reflexivity.
Qed.

(** C8 (where the code departs from it). On the island grid, with
    [boundary_val] omitted, lines 89-98 of [solve] leave a right-hand side
    of the padded shape of [rhs]; the call of line 100 then raises
    [AttributeError], whatever the engine and the halo fill are, because it
    hands [vs] to [_petsc_solver], whose first statement reads [settings]
    from it. The gather of line 102 is not reached and [solve] returns no
    array. *)
Theorem solve_raises_before_the_gather
    (ksp_solve : KSP → array2 → array2 → KSPOutcome)
    (enforce_boundaries : array2 → bool → array2) :
  ∃ self, __init__ rs11 island_state = Ok self ∧
    shape (solve_arguments enforce_boundaries island_state
             (const2 6 6 1%Qc) (const2 6 6 (Qc_of_Z 7)) None).1 6 6 ∧
    solve ksp_solve enforce_boundaries self rs11 island_state
      (const2 6 6 1%Qc) (const2 6 6 (Qc_of_Z 7)) None
    = Raise AttributeError.
Proof.
  destruct init_island_state as [self Hself]. exists self. split; [exact Hself |].
  split; [| apply solve_raises].
  apply shape_set_rhs_on_boundaries; concrete_shape.
Qed.


(** Witness of C4 (as the code has it): the padded cell [(2, 2)] of the
    island grid receives the boundary value, its neighbour keeps [rhs]. *)
Lemma rhs_kept_where_no_level_is_set_witness :
  get2 (set_rhs_on_boundaries island_vs (const2 6 6 1%Qc) (const2 6 6 (Qc_of_Z 5))) 2 2
    = Some (Qc_of_Z 5) ∧
  get2 (set_rhs_on_boundaries island_vs (const2 6 6 1%Qc) (const2 6 6 (Qc_of_Z 5))) 2 3
    = Some 1%Qc.
Proof.
  split.
  - destruct (rhs_kept_where_no_level_is_set island_vs (const2 6 6 1%Qc)
                (const2 6 6 (Qc_of_Z 5)) 6 6 2 2) as (lv & Hlv & _ & H & _);
      [concrete_shape | concrete_shape | concrete_shape | lia | lia |].
    rewrite H. injection Hlv as <-. reflexivity.
  - destruct (rhs_kept_where_no_level_is_set island_vs (const2 6 6 1%Qc)
                (const2 6 6 (Qc_of_Z 5)) 6 6 2 3) as (lv & Hlv & _ & H & _);
      [concrete_shape | concrete_shape | concrete_shape | lia | lia |].
    rewrite H. injection Hlv as <-. reflexivity.
Defined.

(** Counterexample to C4 as stated: a column with two levels of which one
    is set is not masked at all its levels (nor unmasked at all of them), so
    by the claim it keeps the caller's value 1; the code gives it the
    boundary value 2. *)
Lemma partly_masked_cell_receives_boundary_val :
  get2 (boundary_mask two_level_vs) 0 0 = Some [true; false] ∧
  fully_masked two_level_vs 0 0 = false ∧
  get2 (set_rhs_on_boundaries two_level_vs [[1%Qc]] [[Qc_of_Z 2]]) 0 0 = Some (Qc_of_Z 2) ∧
  get2 (set_rhs_on_boundaries two_level_vs [[1%Qc]] [[Qc_of_Z 2]]) 0 0 ≠
    Some (if fully_masked two_level_vs 0 0 then Qc_of_Z 2 else 1%Qc).
Proof.
  split; [reflexivity |]. split; [reflexivity |]. split; [reflexivity |].
  vm_compute. discriminate.
Qed.

(** Witness of C3 (as the code has it): 5 columns on 2 processes. *)
Lemma constructor_checks_no_divisibility_witness :
  ∃ da, create_da st54 rs21 = Ok da ∧
    da_ownership_ranges da = ([2; 2], [4])%Z ∧
    covered (da_ownership_ranges da).1 = 4%Z.
Proof.
  destruct (constructor_checks_no_divisibility st54 rs21) as [H _].
  destruct H as (da & Hda & Hr & Hx & _); [discriminate | discriminate |].
  exists da. split; [exact Hda |]. split; [exact Hr |].
  destruct Hx as [Hc _]; [reflexivity |]. rewrite Hc. reflexivity.
Defined.

(** Counterexample to C3 as stated: 2 does not divide 5, yet the constructor
    raises nothing: it hands the blocks [2, 2] to the DMDA constructor and
    returns a solver object. *)
Lemma construction_succeeds_on_uneven_grid :
  (nx st54 `mod` (num_proc rs21).1 ≠ 0)%Z ∧
  (∃ da, create_da st54 rs21 = Ok da ∧ da_ownership_ranges da = ([2; 2], [4])%Z) ∧
  ∃ self, __init__ rs21 state54 = Ok self.
Proof.
  split; [discriminate |]. split.
  - eexists. split; reflexivity.
  - vm_compute. eexists. reflexivity.
Qed.

(** Witness of C7 (as the code has it): 5 columns on 2 processes; the blocks
    are [0, 2) and [2, 4). *)
Lemma ownership_ranges_tile_the_covered_part_witness :
  ∃ da, create_da st54 rs21 = Ok da ∧
    block_range (da_ownership_ranges da).1 0 = (0, 2)%Z ∧
    block_range (da_ownership_ranges da).1 1 = (2, 4)%Z ∧
    ((2 * (5 / 2) = 5)%Z ↔ (5 `mod` 2 = 0)%Z).
Proof.
  assert (∃ da, create_da st54 rs21 = Ok da) as [da Hda] by (eexists; reflexivity).
  exists da. split; [exact Hda |].
  destruct (ownership_ranges_tile_the_covered_part st54 rs21 da Hda)
    as (Hx & _ & _ & _ & Hd & _); [reflexivity | reflexivity | discriminate | discriminate |].
  split; [exact (Hx 0 eq_refl) |]. split; [exact (Hx 1 eq_refl) | exact Hd].
Defined.

(** Counterexample to C7 as stated: with 5 columns on 2 processes column 4
    of the grid lies in no ownership range. *)
Lemma uneven_grid_leaves_a_gap :
  ∃ da, create_da st54 rs21 = Ok da ∧
    (0 ≤ 4 < nx st54)%Z ∧
    ∀ p, ¬ in_block (da_ownership_ranges da).1 p 4.
Proof.
  eexists. split; [reflexivity |]. split; [done |].
  intros p. unfold in_block, block_range, tuple_repeat.
  change (da_ownership_ranges _).1 with [2; 2]%Z.
  destruct p as [| [| [| p]]]; simpl; lia.
Qed.

(** * Further properties of the solver *)

(** ** Ownership ranges and local indices *)

Lemma getRanges_create_da st rs da :
  create_da st rs = Ok da → proc_in_grid rs →
  let bx := (nx st / (num_proc rs).1)%Z in
  let by_ := (ny st / (num_proc rs).2)%Z in
  getRanges da rs =
    (((proc_idx rs).1 * bx, ((proc_idx rs).1 + 1) * bx),
     ((proc_idx rs).2 * by_, ((proc_idx rs).2 + 1) * by_))%Z.
Proof.
  intros Hda [Hp Hq] bx by_.
  destruct (create_da_ok st rs da Hda) as (_ & _ & Hr).
  unfold getRanges. rewrite Hr. simpl. unfold tuple_repeat.
  rewrite !block_range_replicate by lia. rewrite !Z2Nat.id by lia. done.
Qed.

Lemma mod_offset (g p b : Z) :
  (0 < b)%Z → (p * b ≤ g < (p + 1) * b)%Z → (g `mod` b = g - p * b)%Z.
Proof.
  intros Hb Hg. symmetry. apply (Z.mod_unique_pos g b p); lia.
Qed.

(** X1. On a process inside the process grid, every global index of its
    ownership range is mapped by the modulo of line 181 to its offset from
    the start of the range, which lies inside the block; no
    [ZeroDivisionError] arises for an owned cell. *)
Theorem local_index_is_offset_in_owned_range (st : Settings) (rs : Runtime) (da : DMDA)
    (gi gj : Z) :
  create_da st rs = Ok da → proc_in_grid rs →
  let bx := (nx st / (num_proc rs).1)%Z in
  let by_ := (ny st / (num_proc rs).2)%Z in
  let i0 := (getRanges da rs).1.1 in
  let i1 := (getRanges da rs).1.2 in
  let j0 := (getRanges da rs).2.1 in
  let j1 := (getRanges da rs).2.2 in
  (i0 ≤ gi < i1)%Z → (j0 ≤ gj < j1)%Z →
  pymod gi bx = Ok (gi - i0)%Z ∧ (0 ≤ gi - i0 < bx)%Z ∧
  pymod gj by_ = Ok (gj - j0)%Z ∧ (0 ≤ gj - j0 < by_)%Z.
Proof.
  intros Hda Hin bx by_ i0 i1 j0 j1.
  unfold i0, i1, j0, j1. rewrite (getRanges_create_da st rs da Hda Hin). simpl.
  fold bx by_. intros Hi Hj.
  assert (0 < bx)%Z as Hbx by (destruct Hin; nia).
  assert (0 < by_)%Z as Hby by (destruct Hin; nia).
  unfold pymod. rewrite !decide_False by lia.
  rewrite (mod_offset gi (proc_idx rs).1 bx), (mod_offset gj (proc_idx rs).2 by_) by lia.
  repeat split; lia.
Qed.

(** ** Construction *)

Lemma traverse_ok {A B} (f : A → result B) (g : A → B) (l : list A) :
  (∀ x, x ∈ l → f x = Ok (g x)) → traverse f l = Ok (g <$> l).
Proof.
  induction l as [| x l IH]; intros H; simpl; [done |].
  rewrite (H x) by left. simpl. rewrite IH; [done |].
  intros y Hy. apply H. by right.
Qed.

Lemma elem_of_range (a b x : Z) : x ∈ range a b ↔ (a ≤ x < b)%Z.
Proof. unfold range. rewrite elem_of_seqZ. lia. Qed.

Lemma length_range (a b : Z) : length (range a b) = Z.to_nat (b - a).
Proof. unfold range. apply length_seqZ. Qed.

Lemma length_concat_fmap {A B} (f : A → list B) (l : list A) (k : nat) :
  (∀ x, length (f x) = k) → length (concat (f <$> l)) = k * length l.
Proof.
  intros Hf. induction l as [| x l IH]; [simpl; lia |].
  change (concat (f <$> x :: l)) with (f x ++ concat (f <$> l)).
  rewrite length_app, Hf, IH. simpl. lia.
Qed.

Lemma assemble_rows st rs vs n m (i0 i1 j0 j1 : Z) (p q : Z) :
  padded vs n m → 0 < n → 0 < m →
  (num_proc rs).1 ≠ 0%Z → (num_proc rs).2 ≠ 0%Z →
  block_sizes st rs n m →
  i0 = (p * Z.of_nat n)%Z → i1 = ((p + 1) * Z.of_nat n)%Z →
  j0 = (q * Z.of_nat m)%Z → j1 = ((q + 1) * Z.of_nat m)%Z →
  traverse (λ j, r ← traverse (λ i, stencil_row st rs (cf vs) i j) (range i0 i1);
                 Ok (concat r)) (range j0 j1) =
  Ok ((λ gj, concat ((λ gi, row_entries vs gi gj (Z.to_nat (gi - i0)) (Z.to_nat (gj - j0)))
                       <$> range i0 i1)) <$> range j0 j1).
Proof.
  intros H Hn Hm Hpx Hpy [Hbx Hby] -> -> -> ->.
  apply traverse_ok. intros gj Hgj. apply elem_of_range in Hgj.
  rewrite (traverse_ok _ (λ gi, row_entries vs gi gj (Z.to_nat (gi - p * Z.of_nat n))
                                  (Z.to_nat (gj - q * Z.of_nat m)))); [done |].
  intros gi Hgi. apply elem_of_range in Hgi.
  rewrite (stencil_row_cells st rs vs n m gi gj) by done.
  rewrite (mod_offset gi p), (mod_offset gj q) by lia. done.
Qed.

(** X2. On a process inside the process grid whose local fields have the
    padded shape of its block ([nx // px] by [ny // py] interior cells, both
    positive), construction raises nothing. The matrix it fills holds, for
    each owned cell in the order of the loops ([j] outside, [i] inside), the
    five stencil entries centre, east, west, north, south built from the
    coefficients of the cell's local position, so [5 * n * m] entries in
    all; the Krylov object is given that matrix, absolute tolerance 0, and
    the relative tolerance and iteration cap of the settings. *)
Theorem construction_fills_five_entries_per_owned_cell (rs : Runtime) (state : State)
    (n m : nat) :
  let st := settings state in
  let vs := variables state in
  let i0 := ((proc_idx rs).1 * Z.of_nat n)%Z in
  let i1 := (((proc_idx rs).1 + 1) * Z.of_nat n)%Z in
  let j0 := ((proc_idx rs).2 * Z.of_nat m)%Z in
  let j1 := (((proc_idx rs).2 + 1) * Z.of_nat m)%Z in
  proc_in_grid rs → block_sizes st rs n m → 0 < n → 0 < m → padded vs n m →
  ∃ self, __init__ rs state = Ok self ∧
    _matrix self =
      concat ((λ gj, concat ((λ gi, row_entries vs gi gj (Z.to_nat (gi - i0))
                                      (Z.to_nat (gj - j0))) <$> range i0 i1))
              <$> range j0 j1) ∧
    length (_matrix self) = 5 * n * m ∧
    ksp_operators (_ksp self) = _matrix self ∧
    ksp_atol (_ksp self) = 0%Qc ∧
    ksp_rtol (_ksp self) = congr_epsilon st ∧
    ksp_max_it (_ksp self) = congr_max_iterations st.
Proof.
  intros st vs i0 i1 j0 j1 Hin Hb Hn Hm H.
  assert ((num_proc rs).1 ≠ 0%Z ∧ (num_proc rs).2 ≠ 0%Z) as [Hpx Hpy]
    by (destruct Hin; lia).
  assert (∃ da, create_da st rs = Ok da) as [da Hda].
  { unfold create_da, floordiv. rewrite !decide_False by done. simpl. by eexists. }
  pose proof (getRanges_create_da st rs da Hda Hin) as Hr. simpl in Hr.
  destruct Hb as [Hbx Hby]. rewrite Hbx, Hby in Hr. fold i0 i1 j0 j1 in Hr.
  destruct (shape_lookup (cf_east vs) n m (n - 1) (shape_cf_east vs n m H)) as (e & He & _);
    [lia |].
  destruct (shape_lookup (cf_west vs) n m 0 (shape_cf_west vs n m H)) as (w & Hw & _);
    [lia |].
  unfold __init__. fold st. rewrite Hda. simpl.
  unfold _assemble_poisson_matrix. fold vs st. rewrite Hr.
  rewrite (assemble_rows st rs vs n m i0 i1 j0 j1 (proc_idx rs).1 (proc_idx rs).2)
    by done.
  simpl.
  unfold getitem.
  rewrite (proj1 (shape_cf_east vs n m H)), (norm_index_neg n (-1)) by lia.
  change (Z.to_nat (- -1)) with 1. simpl. rewrite He. simpl.
  rewrite (proj1 (shape_cf_west vs n m H)), (norm_index_nonneg n 0) by lia.
  change (Z.to_nat 0) with 0. simpl. rewrite Hw. simpl.
  unfold getitem_col_all.
  rewrite (shape_ncols (cf_north vs) n m), (shape_ncols (cf_south vs) n m)
    by (done || by apply shape_cf_north || by apply shape_cf_south).
  rewrite (norm_index_neg m (-1)), (norm_index_nonneg m 0) by lia. simpl.
  eexists. split; [reflexivity |]. simpl. split; [done |]. split; [| done].
  rewrite (length_concat_fmap _ _ (5 * n)).
  - rewrite length_range. unfold j1, j0. nia.
  - intros gj. rewrite (length_concat_fmap _ _ 5) by done.
    rewrite length_range. unfold i1, i0. nia.
Qed.

(** ** The coefficients *)



(** ** The boundary injection *)

Lemma injected_off_ring bf rs st rhs n m i j :
  0 < n → 0 < m → ¬ on_ring n m i j → injected bf rs st rhs n m i j = 0%Qc.
Proof.
  intros Hn Hm Hoff. unfold injected, on_ring in *.
  rewrite !decide_False by (intros (_ & ? & ?); apply Hoff; lia). ring.
Qed.

(** X5. The injection changes no cell of the two-cell padding and no
    interior cell away from the ring of cells next to the padding; on a
    process that owns no edge on which it runs, it returns the right-hand
    side as it got it. *)
Theorem injection_changes_ring_cells_only (bf : BoundaryFac) (rs : Runtime) (st : Settings)
    (rhs : array2) (n m : nat) :
  0 < n → 0 < m → shape rhs (n + 4) (m + 4) →
  length (east bf) = m → length (west bf) = m →
  length (north bf) = n → length (south bf) = n →
  ∃ rhs', add_dirichlet_bc bf rs st rhs = Ok rhs' ∧
    (∀ i j, i < n + 4 → j < m + 4 → ¬ on_ring n m i j → cell rhs' i j = cell rhs i j) ∧
    (east_active rs st = false → west_active rs st = false →
     north_active rs = false → south_active rs = false → rhs' = rhs).
Proof.
  intros Hn Hm Hs He Hw Hno Hso.
  destruct (add_dirichlet_bc_spec bf rs st rhs n m) as (rhs' & Hr & _ & Hcells); try done.
  exists rhs'. split; [done |]. split.
  - intros i j Hi Hj Hoff. rewrite Hcells, injected_off_ring by done. ring.
  - intros H1 H2 H3 H4. rewrite add_dirichlet_bc_steps, H1, H2, H3, H4 in Hr.
    simpl in Hr. by injection Hr.
Qed.

Lemma cell_ew f (a b : array2) n m i j :
  shape a n m → shape b n m → i < n → j < m →
  cell (ew f a b) i j = f (cell a i j) (cell b i j).
Proof.
  intros Ha Hb Hi Hj. unfold cell at 1.
  by rewrite (get2_ew f a b i j (cell a i j) (cell b i j))
    by (by apply (get2_cell _ n m)).
Qed.

(** X6. The injection is additive: injecting into the sum of two
    right-hand sides gives, cell by cell, the sum of the two injected
    right-hand sides. *)
Theorem injection_is_additive (bf : BoundaryFac) (rs : Runtime) (st : Settings)
    (a b : array2) (n m : nat) :
  0 < n → 0 < m → shape a (n + 4) (m + 4) → shape b (n + 4) (m + 4) →
  length (east bf) = m → length (west bf) = m →
  length (north bf) = n → length (south bf) = n →
  ∃ a' b' s', add_dirichlet_bc bf rs st a = Ok a' ∧
    add_dirichlet_bc bf rs st b = Ok b' ∧
    add_dirichlet_bc bf rs st (ew Qcplus a b) = Ok s' ∧
    ∀ i j, i < n + 4 → j < m + 4 → cell s' i j = (cell a' i j + cell b' i j)%Qc.
Proof.
  intros Hn Hm Ha Hb He Hw Hno Hso.
  destruct (add_dirichlet_bc_spec bf rs st a n m) as (a' & Hra & _ & Hca); try done.
  destruct (add_dirichlet_bc_spec bf rs st b n m) as (b' & Hrb & _ & Hcb); try done.
  destruct (add_dirichlet_bc_spec bf rs st (ew Qcplus a b) n m) as (s' & Hrs & _ & Hcs);
    try done.
  { by apply shape_zip_with. }
  exists a', b', s'. do 3 (split; [done |]).
  intros i j Hi Hj. rewrite Hcs, Hca, Hcb by done. unfold injected.
  rewrite !(cell_ew Qcplus a b (n + 4) (m + 4)) by (done || lia).
  repeat case_decide; ring.
Qed.

(** ** What the engine is given, and what is logged *)

Section MoreSolverProperties.

Variable ksp_solve : KSP → array2 → array2 → KSPOutcome.



End MoreSolverProperties.


(** * Properties of the diagnostics base class *)

Module DiagnosticProperties.
Import Diagnostic.

Section Methods.

Context {D : Type} `{EqDecision D}.
Variable format_vars : string → Veros → io_result string.
Variable isfile : string → bool.
Variable has_variable : list (NcCall D) → string → bool.
Variable get_current_timestep : list (NcCall D) → Z.
Variable current_days : Veros → Qc.

Lemma writes_app (h k : list (NcCall D)) : writes (h ++ k) = writes h ++ writes k.
Proof. apply omap_app. Qed.

Lemma initialize_variables_spec variables (var_data : option (list (string * D))) h :
  let r := initialize_variables has_variable variables var_data h in
  ∃ k, r.1 = h ++ k ∧
    r.2 = (if existsb (lacks_data var_data) variables
           then Fail (ValueError "var_data argument must be given for constant variables")
           else Done tt) ∧
    (r.2 = Done tt → writes r.1 = writes h ++ omap (constant_write var_data) variables).
Proof.
  revert h. induction variables as [| [key var] variables IH]; intros h; simpl.
  { exists []. rewrite !app_nil_r. done. }
  set (h1 := if has_variable h key then h else h ++ [initialize_variable key var]).
  assert (∃ k1, h1 = h ++ k1 ∧ writes h1 = writes h) as (k1 & Hh1 & Hw1).
  { unfold h1. destruct (has_variable h key).
    - exists []. by rewrite app_nil_r.
    - eexists. split; [done |]. rewrite writes_app. simpl. by rewrite app_nil_r. }
  unfold lacks_data, constant_write. simpl.
  destruct (time_dependent var); simpl.
  - destruct (IH h1) as (k & Hk & Hr & Hw). exists (k1 ++ k).
    split; [by rewrite Hk, Hh1, app_assoc |]. split; [done |].
    intros Hd. by rewrite Hw, Hw1.
  - destruct (var_data ≫= dict_get key) as [data |] eqn:Hdata; simpl.
    + rewrite ?bool_decide_eq_false_2 by done. simpl.
      destruct (IH (h1 ++ [write_variable key var data None])) as (k & Hk & Hr & Hw).
      exists (k1 ++ [write_variable key var data None] ++ k).
      split; [by rewrite Hk, Hh1, <- !app_assoc |]. split; [done |].
      intros Hd. rewrite Hw, writes_app, Hw1 by done. simpl. by rewrite <- app_assoc.
    + rewrite ?bool_decide_eq_true_2 by done. simpl.
      exists k1. split; [done |]. split; done.
Qed.

(** X9. [initialize_output] leaves the file system alone in two cases and
    makes no helper call in either: in diskless mode, or with both
    frequencies zero, it returns at once without raising, whatever else is
    passed in; and when it is enabled, the output path is an existing file
    and [force_overwrite] is off, it raises [IOError] before opening
    anything. *)
Theorem initialize_output_disabled_or_refused (self : VerosDiagnostic) (veros : Veros)
    (variables : list (string * Variable_)) (var_data : option (list (string * D)))
    (extra_dimensions : option (list (string * Z))) :
  let run := initialize_output format_vars isfile has_variable self veros variables
               var_data extra_dimensions in
  (diskless_mode veros = true ∨
   (output_frequency self = 0%Qc ∧ sampling_frequency self = 0%Qc) →
   run = ([], Done tt)) ∧
  (∀ path, diskless_mode veros = false →
     output_frequency self ≠ 0%Qc ∨ sampling_frequency self ≠ 0%Qc →
     get_output_file_name format_vars self veros = Done path →
     isfile path = true → force_overwrite veros = false →
     ∃ msg, run = ([], Fail (IOError msg)) ∧ contains msg path ∧
       contains msg (str_of (name self))).
Proof.
  intros run. unfold run, initialize_output, truthy. split.
  - intros [-> | [-> ->]]; [done |].
    rewrite !bool_decide_eq_true_2 by done. simpl. by rewrite orb_true_r.
  - intros path -> Hfreq -> -> ->. simpl.
    assert ((negb (negb (bool_decide (output_frequency self = 0%Qc)))
             && negb (negb (bool_decide (sampling_frequency self = 0%Qc)))) = false) as ->.
    { destruct Hfreq as [H | H]; rewrite (bool_decide_eq_false_2 _ H); simpl;
        [done | by rewrite andb_false_r]. }
    eexists. split; [reflexivity |]. split.
    + by exists "output file "%string, (" for diagnostic '" ++ str_of (name self)
        ++ "' exists (change output path or enable force_overwrite setting)")%string.
    + exists ("output file " ++ path ++ " for diagnostic '")%string,
        "' exists (change output path or enable force_overwrite setting)"%string.
      by rewrite !string_app_assoc.
Qed.

(** X10. Once [initialize_output] is past its guards it opens the output
    file for writing, initializes it and adds the extra dimensions in
    order, and then it can fail in one way only: it raises [ValueError]
    exactly when some variable is constant in time and has no entry in
    [var_data] ([var_data] omitted counts as empty); otherwise it returns
    normally. *)
Theorem initialize_output_fails_iff_constant_lacks_data (self : VerosDiagnostic)
    (veros : Veros) (variables : list (string * Variable_))
    (var_data : option (list (string * D)))
    (extra_dimensions : option (list (string * Z))) (path : string) :
  opens_output format_vars isfile self veros path →
  let run := initialize_output format_vars isfile has_variable self veros variables
               var_data extra_dimensions in
  (∃ k, run.1 = [threaded_io path "w"; initialize_file]
                ++ ((λ '(dim_id, size), add_dimension dim_id size)
                      <$> default [] extra_dimensions) ++ k) ∧
  run.2 = (if existsb (lacks_data var_data) variables
           then Fail (ValueError "var_data argument must be given for constant variables")
           else Done tt).
Proof.
  intros (Hd & Hf & Hp & Hi) run. unfold run, initialize_output.
  rewrite Hd, Hp, Hi. simpl.
  assert ((negb (truthy (output_frequency self))
           && negb (truthy (sampling_frequency self))) = false) as ->.
  { destruct (truthy (output_frequency self)), (truthy (sampling_frequency self)); done. }
  match goal with |- context [initialize_variables _ _ _ ?h] =>
    destruct (initialize_variables_spec variables var_data h) as (k & Hk & Hr & _) end.
  split; [| exact Hr]. exists k. rewrite Hk. reflexivity.
Qed.

(** X11. When [initialize_output] returns normally, the variables it has
    written are exactly the variables that are constant in time, each once,
    in the order of [variables], with its entry of [var_data] and without a
    time step; a time-dependent variable is never written. *)
Theorem initialize_output_writes_the_constant_variables (self : VerosDiagnostic)
    (veros : Veros) (variables : list (string * Variable_))
    (var_data : option (list (string * D)))
    (extra_dimensions : option (list (string * Z))) (path : string) :
  opens_output format_vars isfile self veros path →
  let run := initialize_output format_vars isfile has_variable self veros variables
               var_data extra_dimensions in
  run.2 = Done tt →
  writes run.1 = omap (constant_write var_data) variables ∧
  ∀ key var data ts, (key, var, data, ts) ∈ writes run.1 →
    time_dependent var = false ∧ (key, var) ∈ variables ∧
    var_data ≫= dict_get key = Some data ∧ ts = None.
Proof.
  intros (Hd & Hf & Hp & Hi) run. unfold run, initialize_output.
  rewrite Hd, Hp, Hi. simpl.
  assert ((negb (truthy (output_frequency self))
           && negb (truthy (sampling_frequency self))) = false) as ->.
  { destruct (truthy (output_frequency self)), (truthy (sampling_frequency self)); done. }
  match goal with |- context [initialize_variables _ _ _ ?h] =>
    destruct (initialize_variables_spec variables var_data h) as (k & _ & _ & Hw) end.
  intros Hdone. specialize (Hw Hdone).
  assert (writes (D := D) (threaded_io path "w" :: initialize_file
                  :: ((λ '(dim_id, size), add_dimension dim_id size)
                        <$> default [] extra_dimensions)) = []) as Hpre.
  { clear Hw Hdone. simpl.
    induction (default [] extra_dimensions) as [| [d s] l IHl]; [done | exact IHl]. }
  rewrite Hpre in Hw. simpl in Hw. split; [exact Hw |].
  intros key var data ts Hin. rewrite Hw in Hin.
  apply list_elem_of_omap in Hin as ([k' v'] & Hkv & Hc).
  unfold constant_write in Hc. simpl in Hc.
  destruct (time_dependent v') eqn:Htd; [done |].
  destruct (var_data ≫= dict_get k') as [d' |] eqn:Hdata; [| done].
  simpl in Hc. by simplify_eq.
Qed.

Lemma write_variables_spec variables (variable_data : list (string * D)) ts h :
  let r := write_variables variables variable_data ts h in
  (∃ k, r.1 = h ++ k ∧
     Forall (λ c, ∃ key var data, c = write_variable key var data (Some ts)) k) ∧
  (Forall (λ kv, is_Some (dict_get kv.1 variable_data)) variables →
   r.2 = Done tt ∧
   r.1 = h ++ omap (λ kv, data ← dict_get kv.1 variable_data;
                          Some (write_variable kv.1 kv.2 data (Some ts))) variables ∧
   writes r.1 = writes h ++ omap (λ kv, data ← dict_get kv.1 variable_data;
                                        Some (kv.1, kv.2, data, Some ts)) variables) ∧
  (∀ key, r.2 = Fail (KeyError key) →
     dict_get key variable_data = None ∧ ∃ var, (key, var) ∈ variables) ∧
  (r.2 = Done tt ∨ ∃ key, r.2 = Fail (KeyError key)).
Proof.
  revert h. induction variables as [| [key var] variables IH]; intros h; simpl.
  { split; [exists []; by rewrite app_nil_r |].
    split; [intros _; by rewrite !app_nil_r |]. split; [done | by left]. }
  destruct (dict_get key variable_data) as [data |] eqn:Hdata; simpl.
  - destruct (IH (h ++ [write_variable key var data (Some ts)]))
      as ((k & Hk & Hall) & Hok & Hfail & Hcases).
    split; [| split; [| split; [| exact Hcases]]].
    + exists (write_variable key var data (Some ts) :: k).
      split; [by rewrite Hk, <- app_assoc |].
      constructor; [by eexists _, _, _ | done].
    + intros Hall'. inversion Hall' as [| ? ? _ Hall'']; subst.
      destruct (Hok Hall'') as (Hr & Hh & Hw). split; [done |].
      split; [by rewrite Hh, <- app_assoc |].
      rewrite Hw, writes_app. simpl. by rewrite <- app_assoc.
    + intros key' Hk'. destruct (Hfail key' Hk') as (Hnone & var' & Hin).
      split; [done |]. exists var'. by right.
  - split; [exists []; by rewrite app_nil_r |]. split; [| split].
    + intros Hall. inversion Hall as [| ? ? [? Hs] _]; subst. simpl in Hs. congruence.
    + intros key' Hk. simplify_eq. split; [done |]. exists var. by left.
    + right. by exists key.
Qed.

(** X12. Outside diskless mode, with a resolvable output path,
    [write_output] makes these calls and no other: it opens the file for
    update, advances the time axis once, at the current time step and the
    current day, and then writes variables, each at that same time step.
    When every variable has an entry in [variable_data] it writes them
    all, once each and in order, and returns normally; the only way it
    fails is a [KeyError] for a variable that has none. In diskless mode it
    does nothing. *)
Theorem write_output_writes_every_variable_at_one_time_step (self : VerosDiagnostic)
    (veros : Veros) (variables : list (string * Variable_))
    (variable_data : list (string * D)) (path : string) :
  let run := write_output format_vars get_current_timestep current_days self veros
               variables variable_data in
  (diskless_mode veros = true → run = ([], Done tt)) ∧
  (diskless_mode veros = false →
   get_output_file_name format_vars self veros = Done path →
   let ts := get_current_timestep [threaded_io path "r+"] in
   (∃ k, run.1 = [threaded_io path "r+"; advance_time ts (current_days veros)] ++ k ∧
      Forall (λ c, ∃ key var data, c = write_variable key var data (Some ts)) k) ∧
   (Forall (λ kv, is_Some (dict_get kv.1 variable_data)) variables →
    run.2 = Done tt ∧
    run.1 = [threaded_io path "r+"; advance_time ts (current_days veros)]
            ++ omap (λ kv, data ← dict_get kv.1 variable_data;
                           Some (write_variable kv.1 kv.2 data (Some ts))) variables ∧
    writes run.1 = omap (λ kv, data ← dict_get kv.1 variable_data;
                               Some (kv.1, kv.2, data, Some ts)) variables) ∧
   (∀ key, run.2 = Fail (KeyError key) →
      dict_get key variable_data = None ∧ ∃ var, (key, var) ∈ variables) ∧
   (run.2 = Done tt ∨ ∃ key, run.2 = Fail (KeyError key))).
Proof.
  intros run. split; [unfold run, write_output; by intros -> |].
  intros Hd Hp ts. unfold run, write_output. rewrite Hd, Hp. simpl. fold ts.
  match goal with |- context [write_variables _ _ _ ?h] =>
    destruct (write_variables_spec variables variable_data ts h)
      as (Hhist & Hok & Hfail & Hcases)
  end.
  split; [exact Hhist |]. split; [| split; [exact Hfail | exact Hcases]].
  intros Hall. destruct (Hok Hall) as (Hr & Hh & Hw). split; [done |].
  split; [exact Hh |]. by rewrite Hw.
Qed.

End Methods.

End DiagnosticProperties.

(** * The further properties on concrete inputs *)

Lemma local_index_is_offset_in_owned_range_witness :
  pymod 3 (5 / 2) = Ok (3 - 2)%Z ∧ pymod 2 (4 / 1) = Ok (2 - 0)%Z.
Proof.
  assert (∃ da, create_da st54 rs21_second = Ok da) as [da Hda] by (eexists; reflexivity).
  destruct (local_index_is_offset_in_owned_range st54 rs21_second da 3 2 Hda)
    as (H1 & _ & H2 & _).
  - split; simpl; lia.
  - injection Hda as <-. vm_compute. split; [discriminate | reflexivity].
  - injection Hda as <-. vm_compute. split; [discriminate | reflexivity].
  - injection Hda as <-. split; [exact H1 | exact H2].
Defined.

Lemma construction_fills_five_entries_per_owned_cell_witness :
  ∃ self, __init__ rs11 unit_state = Ok self ∧ length (_matrix self) = 20.
Proof.
  destruct (construction_fills_five_entries_per_owned_cell rs11 unit_state 2 2)
    as (self & Hself & _ & Hlen & _).
  - split; simpl; lia.
  - split; reflexivity.
  - lia.
  - lia.
  - exact padded_unit_vs.
  - exists self. split; [exact Hself | exact Hlen].
Defined.



Lemma injection_changes_ring_cells_only_witness :
  ∃ rhs', add_dirichlet_bc bf_east2 rs_mid st22 (const2 6 6 (Qc_of_Z 3)) = Ok rhs' ∧
    cell rhs' 0 0 = cell (const2 6 6 (Qc_of_Z 3)) 0 0.
Proof.
  destruct (injection_changes_ring_cells_only bf_east2 rs_mid st22 (const2 6 6 (Qc_of_Z 3)) 2 2)
    as (rhs' & H1 & H2 & _);
    [lia | lia | concrete_shape | reflexivity | reflexivity | reflexivity | reflexivity |].
  exists rhs'. split; [exact H1 |]. apply H2; [lia | lia |]. unfold on_ring. lia.
Defined.

Lemma injection_is_additive_witness :
  ∃ a' b' s', add_dirichlet_bc bf_east2 rs_mid st22 (const2 6 6 1%Qc) = Ok a' ∧
    add_dirichlet_bc bf_east2 rs_mid st22 (const2 6 6 (Qc_of_Z 3)) = Ok b' ∧
    add_dirichlet_bc bf_east2 rs_mid st22
      (ew Qcplus (const2 6 6 1%Qc) (const2 6 6 (Qc_of_Z 3))) = Ok s' ∧
    cell s' 3 2 = (cell a' 3 2 + cell b' 3 2)%Qc.
Proof.
  destruct (injection_is_additive bf_east2 rs_mid st22 (const2 6 6 1%Qc)
              (const2 6 6 (Qc_of_Z 3)) 2 2)
    as (a' & b' & s' & Ha & Hb & Hs & Hc);
    [lia | lia | concrete_shape | concrete_shape | reflexivity | reflexivity | reflexivity
    | reflexivity |].
  exists a', b', s'. do 3 (split; [assumption |]). apply Hc; lia.
Defined.




Lemma initialize_output_disabled_or_refused_witness :
  ∃ msg, Diagnostic.initialize_output format_plain every_file no_variable snapshot keeps_files
           two_variables (Some [("dxt"%string, 7%Z)]) None
         = ([], Diagnostic.Fail (Diagnostic.IOError msg)).
Proof.
  destruct (DiagnosticProperties.initialize_output_disabled_or_refused format_plain every_file
              no_variable snapshot keeps_files two_variables (Some [("dxt"%string, 7%Z)]) None)
    as [_ H].
  destruct (H "snapshot.nc"%string) as (msg & Hm & _);
    [reflexivity | left; discriminate | reflexivity | reflexivity | reflexivity |].
  exists msg. exact Hm.
Defined.

Lemma opens_snapshot :
  Diagnostic.opens_output format_plain no_file snapshot keeps_files "snapshot.nc".
Proof. repeat split. Defined.

Lemma initialize_output_fails_iff_constant_lacks_data_witness :
  (Diagnostic.initialize_output format_plain no_file no_variable snapshot keeps_files
     two_variables None None).2
  = Diagnostic.Fail (Diagnostic.ValueError "var_data argument must be given for constant variables").
Proof.
  destruct (DiagnosticProperties.initialize_output_fails_iff_constant_lacks_data format_plain
              no_file no_variable snapshot keeps_files two_variables None None "snapshot.nc"
              opens_snapshot) as [_ H].
  rewrite H. reflexivity.
Defined.

Lemma initialize_output_writes_the_constant_variables_witness :
  Diagnostic.writes
    (Diagnostic.initialize_output format_plain no_file no_variable snapshot keeps_files
       two_variables (Some [("dxt"%string, 7%Z)]) None).1
  = [("dxt"%string, {| Diagnostic.time_dependent := false |}, 7%Z, None)].
Proof.
  destruct (DiagnosticProperties.initialize_output_writes_the_constant_variables format_plain
              no_file no_variable snapshot keeps_files two_variables
              (Some [("dxt"%string, 7%Z)]) None "snapshot.nc" opens_snapshot) as [H _];
    [reflexivity |].
  rewrite H. reflexivity.
Defined.

Lemma write_output_writes_every_variable_at_one_time_step_witness :
  (Diagnostic.write_output format_plain first_step day_one snapshot keeps_files
     two_variables [("dxt"%string, 7%Z)]).2
  = Diagnostic.Fail (Diagnostic.KeyError "temp") ∧
  Diagnostic.write_output format_plain first_step day_one snapshot keeps_files
    two_variables [("temp"%string, 1%Z); ("dxt"%string, 7%Z)]
  = ([Diagnostic.threaded_io "snapshot.nc" "r+";
      Diagnostic.advance_time 0 1%Qc;
      Diagnostic.write_variable "temp" {| Diagnostic.time_dependent := true |} 1%Z (Some 0%Z);
      Diagnostic.write_variable "dxt" {| Diagnostic.time_dependent := false |} 7%Z (Some 0%Z)],
     Diagnostic.Done tt).
Proof.
  split.
  - reflexivity.
  - destruct (DiagnosticProperties.write_output_writes_every_variable_at_one_time_step
                format_plain first_step day_one snapshot keeps_files two_variables
                [("temp"%string, 1%Z); ("dxt"%string, 7%Z)] "snapshot.nc") as [_ H].
    destruct H as (_ & Hok & _); [reflexivity | reflexivity |].
    destruct Hok as (Hr & Hh & _); [repeat constructor; by eexists |].
    apply injective_projections; [exact Hh | exact Hr].
Defined.
